(** * Dependency scanner of neorv32_soc: [scripts/dep_parse.py]

    A shallow embedding of the VHDL dependency parser and of the small
    directed graph it is built on, together with the properties of the
    graph construction, the wildcard resolution, the pruning and the
    emission of make rules.

    Conventions of the embedding:
    - text is a [string] of characters below code point 128;
    - a Python [dict] is an association list in insertion order;
    - a Python [set] of strings is a duplicate-free list, and the order in
      which a [for] loop walks it is a parameter ([SetOrder]);
    - a resolved [pathlib.Path] is the list of its components;
    - [print] appends one chunk of text to the stream it writes to. *)

From Stdlib Require Import List String Ascii Bool Arith Lia Permutation.
Import ListNotations.
Local Open Scope string_scope.
Local Open Scope list_scope.

(** String concatenation, kept apart from the [++] of lists. *)
Infix "+++" := String.append (right associativity, at level 60).

(* ================================================================== *)
(** ** Characters and strings *)

Definition nl : ascii := ascii_of_nat 10.
Definition tab : ascii := ascii_of_nat 9.

Definition in_range (lo hi : nat) (c : ascii) : bool :=
  ((lo <=? nat_of_ascii c)%nat && (nat_of_ascii c <=? hi)%nat)%bool.

Definition is_upper (c : ascii) : bool := in_range 65 90 c.

(** [\w] (and [\d], which it contains) on ASCII text. *)
Definition is_word (c : ascii) : bool :=
  in_range 48 57 c || in_range 65 90 c || in_range 97 122 c
  || Ascii.eqb c "_".

(** [\s] of a [str] pattern: tab to carriage return, the four
    separators 28..31 and the space. *)
Definition is_space (c : ascii) : bool :=
  in_range 9 13 c || in_range 28 32 c.

Definition lower_ascii (c : ascii) : ascii :=
  if is_upper c then ascii_of_nat (nat_of_ascii c + 32) else c.

(** [str.lower()] *)
Fixpoint lower (s : string) : string :=
  match s with
  | EmptyString => EmptyString
  | String c s' => String (lower_ascii c) (lower s')
  end.

(** [c in s] for a one-character [c] *)
Fixpoint has_char (c : ascii) (s : string) : bool :=
  match s with
  | EmptyString => false
  | String d s' => Ascii.eqb d c || has_char c s'
  end.

(** [s.count(c)] for a one-character [c] *)
Fixpoint count_char (c : ascii) (s : string) : nat :=
  match s with
  | EmptyString => 0
  | String d s' => (if Ascii.eqb d c then 1 else 0) + count_char c s'
  end.

(** [s.replace(c, r)] for a one-character [c] *)
Fixpoint replace_char (c : ascii) (r : string) (s : string) : string :=
  match s with
  | EmptyString => EmptyString
  | String d s' =>
      if Ascii.eqb d c then r +++ replace_char c r s'
      else String d (replace_char c r s')
  end.

(** [s.startswith(p)] *)
Definition startswith (s p : string) : bool := String.prefix p s.

(** [needle in hay] for strings *)
Fixpoint contains (needle hay : string) : bool :=
  String.prefix needle hay
  || match hay with
     | EmptyString => false
     | String _ hay' => contains needle hay'
     end.

Fixpoint last_char (s : string) : option ascii :=
  match s with
  | EmptyString => None
  | String c EmptyString => Some c
  | String _ s' => last_char s'
  end.

Fixpoint all_chars (f : ascii -> bool) (s : string) : bool :=
  match s with
  | EmptyString => true
  | String c s' => f c && all_chars f s'
  end.

Fixpoint join (sep : string) (l : list string) : string :=
  match l with
  | [] => ""
  | [x] => x
  | x :: l' => x +++ sep +++ join sep l'
  end.

(* ================================================================== *)
(** ** The fragment of Python's [re] the script uses

    Every pattern of the script is a sequence of literal characters,
    character classes, greedy [+] repetitions of a class and named groups
    that hold either a repeated class or nothing.  All searches are made
    with [re.IGNORECASE].  The matcher below is the backtracking matcher
    of [re] on that fragment: a repetition takes as much as it can and
    gives characters back one at a time. *)

Inductive atom :=
| ALit (c : ascii)     (* a literal character *)
| AWord                (* [\w\d] *)
| ASpace               (* \s *)
| ADot.                (* . *)

Inductive ritem :=
| One (a : atom)
| Plus (a : atom)
| Group (name : string) (body : option atom).

Definition regex := list ritem.

Definition atom_matches (a : atom) (c : ascii) : bool :=
  match a with
  | ALit l => Ascii.eqb (lower_ascii l) (lower_ascii c)
  | AWord => is_word c
  | ASpace => is_space c
  | ADot => negb (Ascii.eqb c nl)
  end.

(** The groups of a match, in the order of the pattern. *)
Definition rmatch := list (string * string).

Fixpoint match_here (p : regex) (s : string) {struct p}
  : option (rmatch * string) :=
  match p with
  | [] => Some ([], s)
  | One a :: p' =>
      match s with
      | String c s' => if atom_matches a c then match_here p' s' else None
      | EmptyString => None
      end
  | Plus a :: p' =>
      (fix more (s : string) : option (rmatch * string) :=
         match s with
         | String c s' =>
             if atom_matches a c then
               match more s' with
               | Some r => Some r
               | None => match_here p' s'
               end
             else None
         | EmptyString => None
         end) s
  | Group name None :: p' =>
      match match_here p' s with
      | Some (gs, rest) => Some ((name, "") :: gs, rest)
      | None => None
      end
  | Group name (Some a) :: p' =>
      (fix more (acc : string) (s : string) : option (rmatch * string) :=
         match s with
         | String c s' =>
             if atom_matches a c then
               match more (acc +++ String c "") s' with
               | Some r => Some r
               | None =>
                   match match_here p' s' with
                   | Some (gs, rest) =>
                       Some ((name, acc +++ String c "") :: gs, rest)
                   | None => None
                   end
               end
             else None
         | EmptyString => None
         end) "" s
  end.

(** [re.search(p, s, re.IGNORECASE)] as a truth value *)
Fixpoint re_search (p : regex) (s : string) : bool :=
  match match_here p s with
  | Some _ => true
  | None =>
      match s with
      | EmptyString => false
      | String _ s' => re_search p s'
      end
  end.

(** [re.finditer(p, s, re.IGNORECASE)]: the matches from left to right,
    none overlapping another.  [skip] counts the characters that still
    belong to the previous match.  No pattern of the script matches the
    empty string. *)
Fixpoint finditer_from (p : regex) (skip : nat) (s : string) : list rmatch :=
  match skip with
  | S k =>
      match s with
      | EmptyString => []
      | String _ s' => finditer_from p k s'
      end
  | O =>
      match match_here p s with
      | Some (gs, rest) =>
          gs :: match s with
                | EmptyString => []
                | String _ s' =>
                    finditer_from p (String.length s - String.length rest - 1) s'
                end
      | None =>
          match s with
          | EmptyString => []
          | String _ s' => finditer_from p 0 s'
          end
      end
  end.

Definition finditer (p : regex) (s : string) : list rmatch :=
  finditer_from p 0 s.

(** [match.group(name)] *)
Fixpoint group (name : string) (m : rmatch) : string :=
  match m with
  | [] => ""
  | (n, v) :: m' => if String.eqb n name then v else group name m'
  end.

(** Pattern text to pattern. *)
Fixpoint lit (s : string) : regex :=
  match s with
  | EmptyString => []
  | String c s' => One (ALit c) :: lit s'
  end.

Definition ws : regex := [Plus ASpace].
Definition word (name : string) : regex := [Group name (Some AWord)].
Definition none (name : string) : regex := [Group name None].

(* ================================================================== *)
(** ** [_DiGraph]: the graph as one instance sees it

    [nodes] maps a node to the keyword arguments it was added with, which
    are either empty or hold the one key [file]; [edges] is a list of
    pairs.  The functions below are the methods as seen through the
    instance they are called on; the class-level containers behind them
    are modelled in [ClassLevel] further down. *)

Definition Path := list string.

(** The keyword arguments of a node: [None] is the empty dict, [Some f]
    is the dict that holds [file = f]. *)
Definition Attrs := option Path.

Definition Dict := list (string * Attrs).
Definition Edge := (string * string)%type.

(** [k in d] *)
Definition dict_in (k : string) (d : Dict) : bool :=
  existsb (fun kv => String.eqb (fst kv) k) d.

(** [d.get(k)] *)
Fixpoint dict_get (k : string) (d : Dict) : option Attrs :=
  match d with
  | [] => None
  | (k', v) :: d' => if String.eqb k' k then Some v else dict_get k d'
  end.

(** [d[k] = v]: an old key keeps its place, a new key goes last. *)
Fixpoint dict_set (k : string) (v : Attrs) (d : Dict) : Dict :=
  match d with
  | [] => [(k, v)]
  | (k', v') :: d' =>
      if String.eqb k' k then (k, v) :: d' else (k', v') :: dict_set k v d'
  end.

(** [d.pop(k, None)] *)
Definition dict_pop (k : string) (d : Dict) : Dict :=
  filter (fun kv => negb (String.eqb (fst kv) k)) d.

(** The keys in iteration order. *)
Definition keys (d : Dict) : list string := map fst d.

Record DiGraph := { nodes : Dict; edges : list Edge }.

Definition empty_graph : DiGraph := {| nodes := []; edges := [] |}.

Definition add_node (node : string) (kwargs : Attrs) (g : DiGraph) : DiGraph :=
  {| nodes := dict_set node kwargs (nodes g); edges := edges g |}.

Definition remove_node (node : string) (g : DiGraph) : DiGraph :=
  {| nodes := dict_pop node (nodes g);
     edges := filter (fun e => negb (String.eqb (fst e) node)
                               && negb (String.eqb (snd e) node))
                     (edges g) |}.

Definition add_edge (node_from node_to : string) (g : DiGraph) : DiGraph :=
  let g' := fold_left
              (fun g node =>
                 if dict_in node (nodes g) then g else add_node node None g)
              [node_from; node_to] g in
  {| nodes := nodes g'; edges := edges g' ++ [(node_from, node_to)] |}.

(** [copy] returns a copy of the node mapping only. *)
Definition copy (g : DiGraph) : Dict := nodes g.

Definition out_edges (node : string) (g : DiGraph) : list Edge :=
  filter (fun e => String.eqb (fst e) node) (edges g).

(* ================================================================== *)
(** ** [VHDLDependencyParser]: the patterns *)

Definition TESTBENCH_FILE_REGEX : list regex :=
  [ lit "_tb." ; lit "/tb_" ].

Definition PACKAGE_DEF_REGEX : list regex :=
  [ lit "package" ++ ws ++ word "name" ++ ws ++ lit "is" ].

Definition PACKAGE_BODY_DEF_REGEX : list regex :=
  [ lit "package" ++ ws ++ lit "body" ++ ws ++ word "name" ++ ws ++ lit "is" ].

Definition ENTITY_DEF_REGEX : list regex :=
  [ lit "entity" ++ ws ++ word "name" ++ ws ++ lit "is" ].

Definition ARCH_DEF_REGEX : list regex :=
  [ lit "architecture" ++ ws ++ word "name" ++ ws ++ lit "of" ++ ws
    ++ word "entity" ++ ws ++ lit "is" ].

Definition PACKAGE_USE_REGEX : list regex :=
  [ lit "use" ++ ws ++ word "library" ++ lit "." ++ word "name" ++ lit "." ].

Definition ENTITY_USE_REGEX : list regex :=
  [ lit "entity" ++ ws ++ word "library" ++ lit "." ++ word "name"
    ++ [One ASpace] ++ none "architecture" ;
    lit "entity" ++ ws ++ word "library" ++ lit "." ++ word "name"
    ++ lit "(" ++ word "architecture" ++ lit ")" ++ [One ASpace] ;
    lit "component" ++ ws ++ word "name" ++ ws ++ lit "is"
    ++ none "library" ++ none "architecture" ].

Definition PSL_REGEX : list regex :=
  [ lit "vunit" ++ ws ++ word "name" ++ lit "(" ++ word "entity" ++ lit "("
    ++ word "architecture" ++ lit "))" ++ [One ASpace] ;
    lit "vunit" ++ ws ++ word "name" ++ lit "(" ++ word "entity"
    ++ none "architecture" ++ lit ")" ++ [One ASpace] ].

(** [for regex in REGEXES: for match in re.finditer(regex, src, ...)] *)
Definition matches_of (res : list regex) (src : string) : list rmatch :=
  flat_map (fun re => finditer re src) res.

(* ================================================================== *)
(** ** Sets of strings *)

(** [s.add(x)] *)
Definition set_add (x : string) (s : list string) : list string :=
  if existsb (String.eqb x) s then s else s ++ [x].

(** [s.update(t)] *)
Definition set_update (s t : list string) : list string :=
  fold_left (fun acc x => set_add x acc) t s.

(** The order in which a [for] loop walks a set is not fixed by the
    language; it is some arrangement of the elements. *)
Record SetOrder := {
  iter : list string -> list string;
  iter_perm : forall l, Permutation (iter l) l
}.

Definition insertion_order : SetOrder :=
  {| iter := fun l => l; iter_perm := @Permutation_refl string |}.

(** [x or y] on strings *)
Definition str_or (x y : string) : string :=
  match x with EmptyString => y | _ => x end.

(* ================================================================== *)
(** ** [VHDLDependencyParser]: extraction *)

Definition _parse_src_to_defines (src library : string) : list string :=
  let defines := [] in
  let defines :=
    fold_left (fun defines m => set_add (library +++ "." +++ group "name" m) defines)
              (matches_of PACKAGE_DEF_REGEX src) defines in
  let defines :=
    fold_left (fun defines m => set_add (library +++ "." +++ group "name" m) defines)
              (matches_of ENTITY_DEF_REGEX src) defines in
  defines.

Definition _parse_src_to_uses (src : string) : list string :=
  let uses := [] in
  let uses :=
    fold_left (fun uses m =>
                 set_add (group "library" m +++ "." +++ group "name" m) uses)
              (matches_of PACKAGE_USE_REGEX src) uses in
  let uses :=
    fold_left (fun uses m =>
                 let arch := group "architecture" m in
                 match arch with
                 | String _ _ =>
                     set_add (str_or (group "library" m) "*" +++ "."
                              +++ group "name" m +++ "." +++ arch) uses
                 | EmptyString =>
                     set_add (str_or (group "library" m) "*" +++ "."
                              +++ group "name" m) uses
                 end)
              (matches_of ENTITY_USE_REGEX src) uses in
  uses.

Definition _parse_src_to_defines_and_uses (src library : string)
  : list string * list string :=
  let du := ([], []) in
  let du :=
    fold_left (fun du m =>
                 (set_add (library +++ "." +++ group "name" m +++ ".body") (fst du),
                  set_add (library +++ "." +++ group "name" m) (snd du)))
              (matches_of PACKAGE_BODY_DEF_REGEX src) du in
  let du :=
    fold_left (fun du m =>
                 (set_add (library +++ "." +++ group "entity" m +++ "."
                           +++ group "name" m) (fst du),
                  set_add (library +++ "." +++ group "entity" m) (snd du)))
              (matches_of ARCH_DEF_REGEX src) du in
  let du :=
    fold_left (fun du m =>
                 (set_add (library +++ "." +++ group "entity" m +++ "."
                           +++ str_or (group "architecture" m) "*" +++ "."
                           +++ group "name" m) (fst du),
                  set_add ("*." +++ group "entity" m +++ "."
                           +++ str_or (group "architecture" m) "*") (snd du)))
              (matches_of PSL_REGEX src) du in
  du.

(** The identifiers that the three loops of
    [_parse_src_to_defines_and_uses] add to [defines], by pattern. *)
Definition body_define (library : string) (m : rmatch) : string :=
  library +++ "." +++ group "name" m +++ ".body".
Definition body_use (library : string) (m : rmatch) : string :=
  library +++ "." +++ group "name" m.
Definition arch_define (library : string) (m : rmatch) : string :=
  library +++ "." +++ group "entity" m +++ "." +++ group "name" m.
Definition arch_use (library : string) (m : rmatch) : string :=
  library +++ "." +++ group "entity" m.
Definition psl_define (library : string) (m : rmatch) : string :=
  library +++ "." +++ group "entity" m +++ "."
  +++ str_or (group "architecture" m) "*" +++ "." +++ group "name" m.
Definition psl_use (m : rmatch) : string :=
  "*." +++ group "entity" m +++ "." +++ str_or (group "architecture" m) "*".

(** [source] is the text that [file.read()] returned. *)
Definition _parse_file (source library : string) : list string * list string :=
  let defines := _parse_src_to_defines source library in
  let uses := _parse_src_to_uses source in
  let '(comb_define, comb_use) := _parse_src_to_defines_and_uses source library in
  let defines := set_update defines comb_define in
  let uses := set_update uses comb_use in
  (defines, uses).

(* ================================================================== *)
(** ** [VHDLDependencyParser]: the graph operations *)

(** The pattern that [u.replace(".", "\.").replace("*", ".+")] denotes:
    a dot stands for itself, a star for [.+], and every other character
    of an identifier is a word character, which stands for itself. *)
Fixpoint wildcard_pattern (u : string) : regex :=
  match u with
  | EmptyString => []
  | String c u' =>
      (if Ascii.eqb c "*" then Plus ADot else One (ALit c))
      :: wildcard_pattern u'
  end.

Definition _is_refering_to (u v : string) : bool :=
  if has_char "*" u && negb (has_char "*" v) then
    let pattern := wildcard_pattern u in
    if re_search pattern v then true else false
  else false.

Section Parser.

Variable order : SetOrder.

(** The body of the outer loop of [parse]. *)
Definition parse_provide (filepath : Path) (uses : list string)
           (g : DiGraph) (provide : string) : DiGraph :=
  let p := lower provide in
  let g := add_node p (Some filepath) g in
  let g := fold_left
             (fun g use =>
                let u := lower use in
                if String.eqb p u then g else add_edge p u g)
             uses g in
  if Nat.eqb (count_char "." p) 1 then add_node (p +++ ".*") None g else g.

(** [filepath] is the resolved path and [source] the text of the file. *)
Definition parse (filepath : Path) (source library : string) (g : DiGraph)
  : DiGraph :=
  let '(provides, uses) := _parse_file source library in
  fold_left (parse_provide filepath (iter order uses))
            (iter order provides) g.

End Parser.

Definition resolve (g : DiGraph) : DiGraph :=
  let gc := copy g in
  fold_left
    (fun acc u =>
       fold_left
         (fun acc v => if _is_refering_to u v then add_edge u v acc else acc)
         (keys gc) acc)
    (keys gc) g.

Definition remove (units : list string) (g : DiGraph) : DiGraph :=
  let gc := copy g in
  fold_left
    (fun acc n =>
       if existsb (fun unit => startswith n (unit +++ ".")) units
       then remove_node n acc else acc)
    (keys gc) g.

(* ================================================================== *)
(** ** [VHDLDependencyParser]: the emission of make rules

    A run of [write_makefile_rules] leaves what it printed on the two
    streams and, if it stopped early, the exception that stopped it. *)

Inductive exn :=
| KeyError (k : string)
| ValueError.

Record Outcome := {
  out : list string;       (* sys.stdout, one entry per print *)
  err : list string;       (* sys.stderr, one entry per print *)
  raised : option exn
}.

Definition done : Outcome := {| out := []; err := []; raised := None |}.

(** [print(s, end=e)] *)
Definition print (s e : string) : Outcome :=
  {| out := [s +++ e]; err := []; raised := None |}.

(** [print(s, file=sys.stderr)] *)
Definition eprint (s : string) : Outcome :=
  {| out := []; err := [s +++ String nl ""]; raised := None |}.

Definition raise (e : exn) : Outcome :=
  {| out := []; err := []; raised := Some e |}.

(** Sequencing: what follows an exception does not run. *)
Definition seq (a b : Outcome) : Outcome :=
  match raised a with
  | Some _ => a
  | None => {| out := out a ++ out b; err := err a ++ err b;
               raised := raised b |}
  end.

Notation "a ;; b" := (seq a b) (at level 61, left associativity).

Definition endl : string := String nl "".

(** [file.relative_to(root)] *)
Fixpoint relative_to (file root : Path) : option Path :=
  match root, file with
  | [], _ => Some file
  | r :: root', f :: file' =>
      if String.eqb r f then relative_to file' root' else None
  | _ :: _, [] => None
  end.

(** [str] of a relative path *)
Definition path_str (p : Path) : string :=
  match p with
  | [] => "."
  | _ => join "/" p
  end.

Definition path_eqb (p q : Path) : bool :=
  if list_eq_dec string_dec p q then true else false.

(** [a.get("file") != b.get("file")] *)
Definition file_differs (a b : Attrs) : bool :=
  match a, b with
  | None, None => false
  | Some p, Some q => negb (path_eqb p q)
  | _, _ => true
  end.

Definition du_name (n : string) : string := replace_char "*" "ANY" n.

(** The loop over [out_edges(n)] inside the object rule of [n]. *)
Fixpoint write_obj_deps (g : DiGraph) (node : Attrs) (deps : list Edge)
  : Outcome :=
  match deps with
  | [] => done
  | (_, du_dep) :: deps' =>
      match dict_get du_dep (nodes g) with
      | None => raise (KeyError du_dep)
      | Some node_dep =>
          (if file_differs node node_dep
           then print ("du/" +++ du_name du_dep) " "
           else done)
          ;; write_obj_deps g node deps'
      end
  end.

(** The body of the loop of [write_makefile_rules]; [root] is what
    [Path("..").resolve()] returns. *)
Definition write_node (root : Path) (g : DiGraph) (n : string) : Outcome :=
  match dict_get n (nodes g) with
  | None => raise (KeyError n)
  | Some node =>
      let design_unit := du_name n in
      let obj_file :=
        match node with
        | Some file =>
            match relative_to file root with
            | Some rel => Some ("obj/" +++ path_str rel +++ ".o")
            | None => None
            end
        | None => Some ""
        end in
      match obj_file with
      | None => raise ValueError
      | Some obj_file =>
          if negb (contains "ANY" design_unit) && String.eqb obj_file ""
          then
            eprint ("Referenced design unit '" +++ design_unit
                    +++ "' is not defined in any file. Ignoring.")
          else
            print ("du/" +++ design_unit +++ ": " +++ obj_file) endl
            ;; print (String tab "@echo [DU] " +++ design_unit) endl
            ;; print (String tab "@mkdir -p $(@D)") endl
            ;; print (String tab "@touch $@") endl
            ;; (if String.eqb obj_file "" then done
                else
                  print (obj_file +++ ":") " "
                  ;; write_obj_deps g node (out_edges n g)
                  ;; print "" endl
                  ;; (if existsb (fun re => re_search re obj_file)
                                 TESTBENCH_FILE_REGEX
                      then print ("OBJS_TB += " +++ obj_file) endl
                      else print ("OBJS += " +++ obj_file) endl))
      end
  end.

Fixpoint write_nodes (root : Path) (g : DiGraph) (ns : list string) : Outcome :=
  match ns with
  | [] => done
  | n :: ns' => write_node root g n ;; write_nodes root g ns'
  end.

Definition write_makefile_rules (root : Path) (g : DiGraph) : Outcome :=
  write_nodes root g (keys (nodes g)).

(* ================================================================== *)
(** ** The class-level containers of [_DiGraph]

    [nodes] and [edges] are attributes of the class.  No method assigns
    [self.nodes], so every instance reads and writes the one dict of the
    class.  [remove_node] assigns [self.edges], which gives the instance
    a list of its own from then on; until then the instance reads and
    appends to the list of the class. *)

Module ClassLevel.

Record World := {
  cls_nodes : Dict;
  cls_edges : list Edge;
  own_edges : list (option (list Edge))   (* per instance: [self.edges] *)
}.

(** The state when the class has just been defined. *)
Definition start : World :=
  {| cls_nodes := []; cls_edges := []; own_edges := [] |}.

(** [_DiGraph()]: the class has no [__init__]. *)
Definition construct (w : World) : nat * World :=
  (List.length (own_edges w),
   {| cls_nodes := cls_nodes w; cls_edges := cls_edges w;
      own_edges := own_edges w ++ [None] |}).

(** [self.nodes] *)
Definition get_nodes (self : nat) (w : World) : Dict := cls_nodes w.

(** [self.edges] *)
Definition get_edges (self : nat) (w : World) : list Edge :=
  match nth self (own_edges w) None with
  | Some l => l
  | None => cls_edges w
  end.

Fixpoint set_nth {A} (i : nat) (x : A) (l : list A) : list A :=
  match l, i with
  | [], _ => []
  | _ :: l', O => x :: l'
  | y :: l', S i' => y :: set_nth i' x l'
  end.

Definition add_node (self : nat) (node : string) (kwargs : Attrs) (w : World)
  : World :=
  {| cls_nodes := dict_set node kwargs (cls_nodes w);
     cls_edges := cls_edges w; own_edges := own_edges w |}.

Definition remove_node (self : nat) (node : string) (w : World) : World :=
  {| cls_nodes := dict_pop node (cls_nodes w);
     cls_edges := cls_edges w;
     own_edges :=
       set_nth self
         (Some (filter (fun e => negb (String.eqb (fst e) node)
                                 && negb (String.eqb (snd e) node))
                       (get_edges self w)))
         (own_edges w) |}.

Definition add_edge (self : nat) (node_from node_to : string) (w : World)
  : World :=
  let w' := fold_left
              (fun w node =>
                 if dict_in node (get_nodes self w) then w
                 else add_node self node None w)
              [node_from; node_to] w in
  match nth self (own_edges w') None with
  | Some l =>
      {| cls_nodes := cls_nodes w'; cls_edges := cls_edges w';
         own_edges := set_nth self (Some (l ++ [(node_from, node_to)]))
                              (own_edges w') |}
  | None =>
      {| cls_nodes := cls_nodes w';
         cls_edges := cls_edges w' ++ [(node_from, node_to)];
         own_edges := own_edges w' |}
  end.

(** The graph that the instance [self] sees. *)
Definition view (self : nat) (w : World) : DiGraph :=
  {| nodes := get_nodes self w; edges := get_edges self w |}.

End ClassLevel.

(* ================================================================== *)
(** ** The trace of graph operations of a run

    [parse] and [resolve] change the graph only through [add_node] and
    [add_edge].  The operations of one call, in order, are its trace. *)

Inductive GraphOp :=
| OpNode (k : string) (a : Attrs)
| OpEdge (a b : string).

Definition apply_op (g : DiGraph) (o : GraphOp) : DiGraph :=
  match o with
  | OpNode k a => add_node k a g
  | OpEdge a b => add_edge a b g
  end.

Definition run (ops : list GraphOp) (g : DiGraph) : DiGraph :=
  fold_left apply_op ops g.

Definition op_edges (ops : list GraphOp) : list Edge :=
  flat_map (fun o => match o with OpEdge a b => [(a, b)] | OpNode _ _ => [] end)
           ops.

Definition provide_ops (filepath : Path) (uses : list string) (provide : string)
  : list GraphOp :=
  let p := lower provide in
  OpNode p (Some filepath)
  :: flat_map (fun use => if String.eqb p (lower use) then []
                          else [OpEdge p (lower use)]) uses
  ++ (if Nat.eqb (count_char "." p) 1 then [OpNode (p +++ ".*") None] else []).

Definition parse_ops (filepath : Path) (provides uses : list string)
  : list GraphOp :=
  flat_map (provide_ops filepath uses) provides.

Definition resolve_ops (ks : list string) : list GraphOp :=
  flat_map (fun u =>
              flat_map (fun v => if _is_refering_to u v then [OpEdge u v]
                                 else []) ks) ks.

(* ================================================================== *)
(** ** A small project, used to run the definitions

    [counter.vhd] holds an entity and two architectures, [top.vhd] an
    entity and an architecture that instantiates the counter as a
    component, [pkg.vhd] a package and its body, and [clauses.vhd] only
    context clauses. *)

Definition root_dir : Path := ["proj"].
Definition counter_vhd : Path := ["proj"; "vhdl"; "counter.vhd"].
Definition top_vhd : Path := ["proj"; "vhdl"; "top.vhd"].
Definition pkg_vhd : Path := ["proj"; "vhdl"; "pkg.vhd"].
Definition clauses_vhd : Path := ["proj"; "vhdl"; "clauses.vhd"].

Definition counter_src : string :=
  "entity Counter is port (clk : in bit); end entity;" +++ endl +++
  "architecture rtl of counter is begin end;" +++ endl +++
  "architecture behav of counter is begin end architecture;".

Definition top_src : string :=
  "library ieee; use ieee.std_logic_1164.all;" +++ endl +++
  "entity top is end;" +++ endl +++
  "architecture a of top is" +++ endl +++
  "  component counter is port (clk : in bit); end component;" +++ endl +++
  "begin" +++ endl +++
  "  u0 : counter port map (clk);" +++ endl +++
  "  u1 : entity work.missing port map (clk);" +++ endl +++
  "end;".

Definition pkg_src : string :=
  "package util is end package;" +++ endl +++
  "package body util is end package body;".

Definition clauses_src : string :=
  "library ieee; use ieee.std_logic_1164.all; use work.util.all;".

Definition counter_graph : DiGraph :=
  parse insertion_order top_vhd top_src "work"
    (parse insertion_order counter_vhd counter_src "work" empty_graph).

(* ================================================================== *)
(** ** The graphs the script can build *)

(** The keys a trace touches. *)
Definition op_keys (ops : list GraphOp) : list string :=
  flat_map (fun o => match o with
                     | OpNode k _ => [k]
                     | OpEdge a b => [a; b]
                     end) ops.

(** Every endpoint of an edge is a node. *)
Definition closed (g : DiGraph) : Prop :=
  forall a b, In (a, b) (edges g) ->
              In a (keys (nodes g)) /\ In b (keys (nodes g)).

(** Every node identifier is in lower case. *)
Definition lower_ids (g : DiGraph) : Prop :=
  forall k, In k (keys (nodes g)) -> lower k = k.

(** The states of the graph of a parser: it starts empty and changes
    through [parse], [resolve] and [remove] only. *)
Inductive reachable : DiGraph -> Prop :=
| reach_new : reachable empty_graph
| reach_parse (order : SetOrder) (filepath : Path) (source library : string)
              (g : DiGraph) :
    reachable g -> reachable (parse order filepath source library g)
| reach_resolve (g : DiGraph) : reachable g -> reachable (resolve g)
| reach_remove (units : list string) (g : DiGraph) :
    reachable g -> reachable (remove units g).

(** [any([n.startswith(unit + ".") for unit in units])] *)
Definition in_units (units : list string) (n : string) : bool :=
  existsb (fun unit => startswith n (unit +++ ".")) units.

Definition mem (k : string) (l : list string) : bool :=
  existsb (String.eqb k) l.

(** What one round of the loop of [remove] keeps. *)
Definition kept (units : list string) (l : list string) (k : string) : bool :=
  negb (in_units units k && mem k l).

(** A node of one of the libraries [ieee] and [std]. *)
Definition std_unit (n : string) : bool :=
  startswith n "ieee." || startswith n "std.".

(** The graph the script hands to [write_makefile_rules]. *)
Definition project_graph : DiGraph :=
  resolve (remove ["ieee"; "std"] counter_graph).

(** The warning for a referenced unit that no file defines. *)
Definition warning (design_unit : string) : string :=
  "Referenced design unit '" +++ design_unit
  +++ "' is not defined in any file. Ignoring.".

(** What the object rule of a node prints for the dependency [d]. *)
Definition dep_chunk (d : string) : string := ("du/" +++ du_name d) +++ " ".

(** Whether the object rule of a node with attributes [node] lists [d]. *)
Definition is_listed (g : DiGraph) (node : Attrs) (d : string) : bool :=
  match dict_get d (nodes g) with
  | Some node_dep => file_differs node node_dep
  | None => false
  end.

(* ================================================================== *)
(** ** What a group of a match holds *)

(** The named groups of a pattern, in order, with what each repeats. *)
Definition group_specs (p : regex) : list (string * option atom) :=
  flat_map (fun it => match it with
                      | Group name body => [(name, body)]
                      | _ => []
                      end) p.

(** The text of a group is empty for an empty group, and otherwise one or
    more characters of the class that the group repeats. *)
Definition conforms (body : option atom) (v : string) : Prop :=
  match body with
  | None => v = ""
  | Some a => v <> "" /\ all_chars (atom_matches a) v = true
  end.

Definition groups_conform (p : regex) (m : rmatch) : Prop :=
  Forall2 (fun spec g => fst spec = fst g /\ conforms (snd spec) (snd g))
          (group_specs p) m.

Fixpoint spec_of (name : string) (specs : list (string * option atom))
  : option (option atom) :=
  match specs with
  | [] => None
  | (n, b) :: specs' => if String.eqb n name then Some b else spec_of name specs'
  end.

(** A pattern whose group [name] is [(?P<name>[\w\d]+)]. *)
Definition word_group (name : string) (p : regex) : Prop :=
  spec_of name (group_specs p) = Some (Some AWord).

(** Whether the last character is a star. *)
Definition ends_star (s : string) : bool :=
  match last_char s with
  | Some c => Ascii.eqb c "*"
  | None => false
  end.

(* ================================================================== *)
(** ** Graphs as a node mapping and an edge set *)

(** The same nodes with the same attributes, and the same edges, whatever
    the order of the entries and the number of copies of an edge. *)
Definition graph_equiv (g1 g2 : DiGraph) : Prop :=
  (forall k, dict_get k (nodes g1) = dict_get k (nodes g2))
  /\ (forall e, In e (edges g1) <-> In e (edges g2)).

(** What one operation does to the entry of the key [k]. *)
Definition key_step (o : GraphOp) (k : string) (x : option Attrs)
  : option Attrs :=
  match o with
  | OpNode k' v => if String.eqb k' k then Some v else x
  | OpEdge a b =>
      match x with
      | Some y => Some y
      | None => if String.eqb a k || String.eqb b k then Some None else None
      end
  end.

(** The attributes that the last [add_node] of a trace gives to [k]. *)
Fixpoint last_node (k : string) (ops : list GraphOp) : option Attrs :=
  match ops with
  | [] => None
  | o :: ops' =>
      match last_node k ops' with
      | Some a => Some a
      | None =>
          match o with
          | OpNode k' v => if String.eqb k' k then Some v else None
          | OpEdge _ _ => None
          end
      end
  end.

(** Whether a trace adds an edge at [k]. *)
Definition touched (k : string) (ops : list GraphOp) : bool :=
  existsb (fun o => match o with
                    | OpEdge a b => String.eqb a k || String.eqb b k
                    | OpNode _ _ => false
                    end) ops.

(** No two [add_node] of the trace give one key different attributes. *)
Definition self_compat (ops : list GraphOp) : Prop :=
  forall k a a', In (OpNode k a) ops -> In (OpNode k a') ops -> a = a'.

(** The trace of one call of [parse]. *)
Definition file_ops (order : SetOrder) (filepath : Path)
           (source library : string) : list GraphOp :=
  parse_ops filepath (iter order (fst (_parse_file source library)))
            (iter order (snd (_parse_file source library))).

(** Two files that define one entity of the same name. *)
Definition dup_a_vhd : Path := ["proj"; "a"; "dup.vhd"].
Definition dup_b_vhd : Path := ["proj"; "b"; "dup.vhd"].
Definition dup_src : string := "entity dup is end entity;".


(* ================================================================== *)
(** ** Folds *)

Lemma fold_left_ext {A B} (f h : A -> B -> A) (l : list B) (a : A) :
  (forall a b, f a b = h a b) -> fold_left f l a = fold_left h l a.
Proof.
  intros E. revert a. induction l as [|b l IH]; intros a; simpl.
  - reflexivity.
  - rewrite E. apply IH.
Qed.

Lemma run_app (l1 l2 : list GraphOp) (g : DiGraph) :
  run (l1 ++ l2) g = run l2 (run l1 g).
Proof. unfold run. apply fold_left_app. Qed.

Lemma fold_run {B} (f : B -> list GraphOp) (l : list B) (g : DiGraph) :
  fold_left (fun g x => run (f x) g) l g = run (flat_map f l) g.
Proof.
  revert g. induction l as [|x l IH]; intros g; simpl.
  - reflexivity.
  - rewrite run_app. apply IH.
Qed.

Lemma parse_provide_run (filepath : Path) (uses : list string) (g : DiGraph)
      (provide : string) :
  parse_provide filepath uses g provide
  = run (provide_ops filepath uses provide) g.
Proof.
  unfold parse_provide, provide_ops.
  change (OpNode (lower provide) (Some filepath) :: ?l)
    with ([OpNode (lower provide) (Some filepath)] ++ l).
  rewrite !run_app. simpl (run [_] g).
  rewrite <- fold_run.
  rewrite (fold_left_ext
             (fun g use => if String.eqb (lower provide) (lower use) then g
                           else add_edge (lower provide) (lower use) g)
             (fun g use => run (if String.eqb (lower provide) (lower use)
                                then [] else [OpEdge (lower provide) (lower use)]) g)).
  - destruct (Nat.eqb _ 1); reflexivity.
  - intros a b. destruct (String.eqb _ _); reflexivity.
Qed.

Lemma parse_run (order : SetOrder) (filepath : Path) (source library : string)
      (g : DiGraph) :
  parse order filepath source library g
  = run (parse_ops filepath (iter order (fst (_parse_file source library)))
                   (iter order (snd (_parse_file source library)))) g.
Proof.
  unfold parse, parse_ops.
  destruct (_parse_file source library) as [provides uses]. simpl.
  rewrite <- fold_run. apply fold_left_ext. intros. apply parse_provide_run.
Qed.

Lemma resolve_run (g : DiGraph) :
  resolve g = run (resolve_ops (keys (nodes g))) g.
Proof.
  unfold resolve, resolve_ops, copy.
  rewrite <- fold_run. apply fold_left_ext. intros a u.
  rewrite <- fold_run. apply fold_left_ext. intros b v.
  destruct (_is_refering_to u v); reflexivity.
Qed.

Lemma edges_add_edge (a b : string) (g : DiGraph) :
  edges (add_edge a b g) = edges g ++ [(a, b)].
Proof.
  unfold add_edge. simpl.
  destruct (dict_in a (nodes g)); simpl;
    match goal with |- context [if ?c then _ else _] => destruct c end;
    reflexivity.
Qed.

Lemma edges_run (ops : list GraphOp) (g : DiGraph) :
  edges (run ops g) = edges g ++ op_edges ops.
Proof.
  revert g. induction ops as [|o ops IH]; intros g.
  - simpl. now rewrite app_nil_r.
  - change (run (o :: ops) g) with (run ops (apply_op g o)).
    rewrite IH. destruct o as [k a|a b]; unfold apply_op.
    + reflexivity.
    + rewrite edges_add_edge, <- app_assoc. reflexivity.
Qed.

(* ================================================================== *)
(** ** Strings *)

Lemma length_append (a b : string) :
  String.length (a +++ b) = String.length a + String.length b.
Proof. induction a as [|c a IH]; simpl; [reflexivity | now rewrite IH]. Qed.

Lemma length_lower (s : string) : String.length (lower s) = String.length s.
Proof. induction s as [|c s IH]; simpl; [reflexivity | now rewrite IH]. Qed.

Lemma lower_append (a b : string) : lower (a +++ b) = lower a +++ lower b.
Proof. induction a as [|c a IH]; simpl; [reflexivity | now rewrite IH]. Qed.

Lemma lower_ascii_idem (c : ascii) : lower_ascii (lower_ascii c) = lower_ascii c.
Proof. destruct c as [[] [] [] [] [] [] [] []]; reflexivity. Qed.

Lemma lower_idem (s : string) : lower (lower s) = lower s.
Proof.
  induction s as [|c s IH]; simpl; [reflexivity|].
  now rewrite lower_ascii_idem, IH.
Qed.

Lemma append_assoc (a b c : string) : (a +++ b) +++ c = a +++ (b +++ c).
Proof. induction a as [|x a IH]; simpl; [reflexivity | now rewrite IH]. Qed.

Lemma append_nil_r (a : string) : a +++ "" = a.
Proof. induction a as [|x a IH]; simpl; [reflexivity | now rewrite IH]. Qed.

(* ================================================================== *)
(** ** Sets of strings *)

Lemma existsb_eqb_In (x : string) (s : list string) :
  existsb (String.eqb x) s = true <-> In x s.
Proof.
  rewrite existsb_exists. split.
  - intros (y & Hy & E). apply String.eqb_eq in E. now subst.
  - intros H. exists x. split; [assumption | apply String.eqb_refl].
Qed.

Lemma in_set_add (x y : string) (s : list string) :
  In x (set_add y s) <-> x = y \/ In x s.
Proof.
  unfold set_add. destruct (existsb (String.eqb y) s) eqn:E.
  - apply existsb_eqb_In in E. split; [now right | intros [->|]; assumption].
  - rewrite in_app_iff. simpl. intuition.
Qed.

Lemma in_fold_set_add {M} (f : M -> string) (l : list M) (s : list string)
      (x : string) :
  In x (fold_left (fun acc m => set_add (f m) acc) l s)
  <-> In x s \/ exists m, In m l /\ x = f m.
Proof.
  revert s. induction l as [|m l IH]; intros s; simpl.
  - split; [now left | intros [H|(m & [] & _)]; assumption].
  - rewrite IH, in_set_add. split.
    + intros [[->|H]|(m' & Hm & ->)].
      * right. exists m. auto.
      * now left.
      * right. exists m'. auto.
    + intros [H|(m' & [<-|Hm] & ->)].
      * left. now right.
      * left. now left.
      * right. exists m'. auto.
Qed.

Lemma in_set_update (s t : list string) (x : string) :
  In x (set_update s t) <-> In x s \/ In x t.
Proof.
  unfold set_update.
  rewrite (in_fold_set_add (fun y => y)). split.
  - intros [H|(m & Hm & ->)]; auto.
  - intros [H|H]; [now left | right; exists x; auto].
Qed.

Lemma fold_pair_fst {M} (f h : M -> string) (l : list M)
      (du : list string * list string) :
  fst (fold_left (fun du m => (set_add (f m) (fst du), set_add (h m) (snd du)))
                 l du)
  = fold_left (fun acc m => set_add (f m) acc) l (fst du).
Proof.
  revert du. induction l as [|m l IH]; intros du; simpl;
    [reflexivity | now rewrite IH].
Qed.

Lemma fold_pair_snd {M} (f h : M -> string) (l : list M)
      (du : list string * list string) :
  snd (fold_left (fun du m => (set_add (f m) (fst du), set_add (h m) (snd du)))
                 l du)
  = fold_left (fun acc m => set_add (h m) acc) l (snd du).
Proof.
  revert du. induction l as [|m l IH]; intros du; simpl;
    [reflexivity | now rewrite IH].
Qed.

Lemma in_iter (order : SetOrder) (l : list string) (x : string) :
  In x (iter order l) <-> In x l.
Proof.
  split; apply Permutation_in;
    [apply iter_perm | apply Permutation_sym, iter_perm].
Qed.

Lemma iter_nil (order : SetOrder) : iter order [] = [].
Proof. apply Permutation_nil, Permutation_sym, iter_perm. Qed.

(* ================================================================== *)
(** ** What a file defines and what it uses *)

Lemma in_comb_define (src library x : string) :
  In x (fst (_parse_src_to_defines_and_uses src library))
  <-> (exists m, In m (matches_of PACKAGE_BODY_DEF_REGEX src)
                 /\ x = body_define library m)
      \/ (exists m, In m (matches_of ARCH_DEF_REGEX src)
                    /\ x = arch_define library m)
      \/ (exists m, In m (matches_of PSL_REGEX src)
                    /\ x = psl_define library m).
Proof.
  unfold _parse_src_to_defines_and_uses.
  rewrite !fold_pair_fst, !in_fold_set_add. simpl. tauto.
Qed.

Lemma in_comb_use (src library x : string) :
  In x (snd (_parse_src_to_defines_and_uses src library))
  <-> (exists m, In m (matches_of PACKAGE_BODY_DEF_REGEX src)
                 /\ x = body_use library m)
      \/ (exists m, In m (matches_of ARCH_DEF_REGEX src)
                    /\ x = arch_use library m)
      \/ (exists m, In m (matches_of PSL_REGEX src) /\ x = psl_use m).
Proof.
  unfold _parse_src_to_defines_and_uses.
  rewrite !fold_pair_snd, !in_fold_set_add. simpl. tauto.
Qed.

Lemma in_defines (src library x : string) :
  In x (fst (_parse_file src library))
  <-> (exists m, In m (matches_of PACKAGE_DEF_REGEX src)
                 /\ x = library +++ "." +++ group "name" m)
      \/ (exists m, In m (matches_of ENTITY_DEF_REGEX src)
                    /\ x = library +++ "." +++ group "name" m)
      \/ In x (fst (_parse_src_to_defines_and_uses src library)).
Proof.
  unfold _parse_file.
  destruct (_parse_src_to_defines_and_uses src library) as [cd cu]. simpl.
  rewrite in_set_update. unfold _parse_src_to_defines.
  rewrite !in_fold_set_add. simpl. tauto.
Qed.

Lemma in_uses_comb (src library x : string) :
  In x (snd (_parse_src_to_defines_and_uses src library)) ->
  In x (snd (_parse_file src library)).
Proof.
  unfold _parse_file.
  destruct (_parse_src_to_defines_and_uses src library) as [cd cu]. simpl.
  rewrite in_set_update. auto.
Qed.

(* ================================================================== *)
(** ** The edges of a trace *)

Lemma in_op_edges (a b : string) (ops : list GraphOp) :
  In (a, b) (op_edges ops) <-> In (OpEdge a b) ops.
Proof.
  unfold op_edges. rewrite in_flat_map. split.
  - intros ([k x|x y] & Ho & Hi); simpl in Hi; [contradiction|].
    destruct Hi as [E|[]]. now inversion E; subst.
  - intros H. exists (OpEdge a b). split; [assumption | now left].
Qed.

Lemma in_provide_ops_edge (filepath : Path) (uses : list string)
      (provide a b : string) :
  In (OpEdge a b) (provide_ops filepath uses provide)
  <-> a = lower provide
      /\ exists u, In u uses /\ b = lower u /\ String.eqb a b = false.
Proof.
  unfold provide_ops. simpl. rewrite in_app_iff, in_flat_map. split.
  - intros [H|[(u & Hu & Hi)|H]].
    + discriminate.
    + destruct (String.eqb (lower provide) (lower u)) eqn:E; simpl in Hi;
        [contradiction|].
      destruct Hi as [Hi|[]]. inversion Hi; subst. eauto.
    + destruct (Nat.eqb _ 1); simpl in H; [destruct H as [H|[]]|];
        try discriminate; contradiction.
  - intros (-> & u & Hu & -> & E). right. left. exists u.
    split; [assumption|]. rewrite E. now left.
Qed.

Lemma in_parse_ops_edge (filepath : Path) (provides uses : list string)
      (a b : string) :
  In (OpEdge a b) (parse_ops filepath provides uses)
  <-> exists p u, In p provides /\ In u uses /\ a = lower p /\ b = lower u
                  /\ String.eqb a b = false.
Proof.
  unfold parse_ops. rewrite in_flat_map. split.
  - intros (p & Hp & H). apply in_provide_ops_edge in H.
    destruct H as (-> & u & Hu & -> & E). exists p, u. auto.
  - intros (p & u & Hp & Hu & -> & -> & E). exists p. split; [assumption|].
    apply in_provide_ops_edge. eauto.
Qed.

Lemma in_resolve_ops (ks : list string) (o : GraphOp) :
  In o (resolve_ops ks)
  <-> exists u v, In u ks /\ In v ks /\ _is_refering_to u v = true
                  /\ o = OpEdge u v.
Proof.
  unfold resolve_ops. rewrite in_flat_map. split.
  - intros (u & Hu & H). apply in_flat_map in H. destruct H as (v & Hv & H).
    destruct (_is_refering_to u v) eqn:E; simpl in H; [|contradiction].
    destruct H as [<-|[]]. exists u, v. auto.
  - intros (u & v & Hu & Hv & E & ->). exists u. split; [assumption|].
    apply in_flat_map. exists v. split; [assumption|]. rewrite E. now left.
Qed.

Lemma refering_star (u v : string) :
  _is_refering_to u v = true ->
  has_char "*" u = true /\ has_char "*" v = false
  /\ re_search (wildcard_pattern u) v = true.
Proof.
  unfold _is_refering_to.
  destruct (has_char "*" u); simpl; [|discriminate].
  destruct (has_char "*" v); simpl; [discriminate|].
  destruct (re_search _ v); [auto | discriminate].
Qed.

Lemma refering_distinct (u v : string) : _is_refering_to u v = true -> u <> v.
Proof.
  intros H E. apply refering_star in H. destruct H as (Hu & Hv & _).
  subst. congruence.
Qed.

Lemma parse_no_self_loop (filepath : Path) (provides uses : list string) :
  Forall (fun e => fst e <> snd e) (op_edges (parse_ops filepath provides uses)).
Proof.
  apply Forall_forall. intros [a b] H. simpl.
  apply in_op_edges, in_parse_ops_edge in H.
  destruct H as (p & u & _ & _ & _ & _ & E). now apply String.eqb_neq.
Qed.

Lemma resolve_no_self_loop (ks : list string) :
  Forall (fun e => fst e <> snd e) (op_edges (resolve_ops ks)).
Proof.
  apply Forall_forall. intros [a b] H. simpl.
  apply in_op_edges, in_resolve_ops in H.
  destruct H as (u & v & _ & _ & E & Ho). inversion Ho; subst.
  now apply refering_distinct.
Qed.

(* ================================================================== *)
(** ** The node mapping *)

Lemma dict_in_keys (k : string) (d : Dict) :
  dict_in k d = true <-> In k (keys d).
Proof.
  unfold dict_in, keys. rewrite existsb_exists, in_map_iff. split.
  - intros (kv & H & E). apply String.eqb_eq in E. eauto.
  - intros (kv & E & H). exists kv. split; [assumption|].
    now apply String.eqb_eq.
Qed.

Lemma dict_in_get (k : string) (d : Dict) :
  dict_in k d = match dict_get k d with Some _ => true | None => false end.
Proof.
  induction d as [|[k' v] d IH]; simpl; [reflexivity|].
  destruct (String.eqb k' k); simpl; [reflexivity | exact IH].
Qed.

Lemma dict_get_set (k k' : string) (v : Attrs) (d : Dict) :
  dict_get k (dict_set k' v d)
  = if String.eqb k' k then Some v else dict_get k d.
Proof.
  induction d as [|[k0 v0] d IH]; simpl.
  - reflexivity.
  - destruct (String.eqb k0 k') eqn:E0; simpl.
    + apply String.eqb_eq in E0. subst k0.
      destruct (String.eqb k' k); reflexivity.
    + destruct (String.eqb k0 k) eqn:E1.
      * apply String.eqb_eq in E1. subst k0.
        destruct (String.eqb k' k) eqn:E2; [|reflexivity].
        apply String.eqb_eq in E2. subst k'.
        rewrite String.eqb_refl in E0. discriminate.
      * exact IH.
Qed.

Lemma nodes_add_edge_present (a b : string) (g : DiGraph) :
  dict_in a (nodes g) = true -> dict_in b (nodes g) = true ->
  nodes (add_edge a b g) = nodes g.
Proof.
  intros Ha Hb. unfold add_edge. simpl. rewrite Ha, Hb. reflexivity.
Qed.

Lemma nodes_run_present (ops : list GraphOp) (g : DiGraph) :
  (forall o, In o ops ->
             exists u v, o = OpEdge u v /\ In u (keys (nodes g))
                         /\ In v (keys (nodes g))) ->
  nodes (run ops g) = nodes g.
Proof.
  revert g. induction ops as [|o ops IH]; intros g H; [reflexivity|].
  change (run (o :: ops) g) with (run ops (apply_op g o)).
  destruct (H o (or_introl eq_refl)) as (u & v & -> & Hu & Hv).
  assert (E : nodes (apply_op g (OpEdge u v)) = nodes g).
  { apply nodes_add_edge_present; now apply dict_in_keys. }
  rewrite IH; [exact E|].
  intros o Ho. rewrite E. apply H. now right.
Qed.

Lemma nodes_resolve (g : DiGraph) : nodes (resolve g) = nodes g.
Proof.
  rewrite resolve_run. apply nodes_run_present.
  intros o Ho. apply in_resolve_ops in Ho.
  destruct Ho as (u & v & Hu & Hv & _ & ->). eauto.
Qed.

Lemma edges_resolve (g : DiGraph) :
  edges (resolve g) = edges g ++ op_edges (resolve_ops (keys (nodes g))).
Proof. rewrite resolve_run. apply edges_run. Qed.

Lemma in_edges_resolve (g : DiGraph) (u v : string) :
  In u (keys (nodes g)) -> In v (keys (nodes g)) ->
  _is_refering_to u v = true ->
  In (u, v) (edges (resolve g)).
Proof.
  intros Hu Hv E. rewrite edges_resolve. apply in_or_app. right.
  apply in_op_edges, in_resolve_ops. exists u, v. auto.
Qed.

(* ================================================================== *)
(** ** Keys *)

Lemma keys_dict_set (k x : string) (v : Attrs) (d : Dict) :
  In x (keys (dict_set k v d)) <-> x = k \/ In x (keys d).
Proof.
  induction d as [|[k0 v0] d IH]; simpl.
  - intuition.
  - destruct (String.eqb k0 k) eqn:E; simpl.
    + apply String.eqb_eq in E. subst. intuition.
    + rewrite IH. intuition.
Qed.

Lemma keys_add_edge (a b x : string) (g : DiGraph) :
  In x (keys (nodes (add_edge a b g)))
  <-> (x = a \/ x = b) \/ In x (keys (nodes g)).
Proof.
  unfold add_edge. simpl.
  destruct (dict_in a (nodes g)) eqn:Ha; simpl.
  - apply dict_in_keys in Ha.
    destruct (dict_in b (nodes g)) eqn:Hb; simpl.
    + apply dict_in_keys in Hb. intuition; subst; assumption.
    + rewrite keys_dict_set. intuition; subst; auto.
  - destruct (dict_in b (dict_set a None (nodes g))) eqn:Hb; simpl.
    + apply dict_in_keys in Hb. rewrite keys_dict_set in Hb.
      rewrite keys_dict_set. intuition; subst; auto.
    + rewrite !keys_dict_set. intuition.
Qed.

Lemma keys_run (ops : list GraphOp) (g : DiGraph) (x : string) :
  In x (keys (nodes (run ops g)))
  <-> In x (keys (nodes g)) \/ In x (op_keys ops).
Proof.
  revert g. induction ops as [|o ops IH]; intros g.
  - simpl. intuition.
  - change (run (o :: ops) g) with (run ops (apply_op g o)).
    rewrite IH. destruct o as [k a|a b]; unfold apply_op.
    + unfold add_node. cbn [nodes]. rewrite keys_dict_set.
      simpl. intuition.
    + rewrite keys_add_edge. simpl. intuition.
Qed.

Lemma op_edges_keys (ops : list GraphOp) (a b : string) :
  In (a, b) (op_edges ops) -> In a (op_keys ops) /\ In b (op_keys ops).
Proof.
  intros H. apply in_op_edges in H. unfold op_keys.
  split; apply in_flat_map; exists (OpEdge a b); simpl; auto.
Qed.

Lemma closed_run (ops : list GraphOp) (g : DiGraph) :
  closed g -> closed (run ops g).
Proof.
  intros C a b H. rewrite edges_run in H. rewrite !keys_run.
  apply in_app_or in H. destruct H as [H|H].
  - apply C in H. intuition.
  - apply op_edges_keys in H. intuition.
Qed.

Lemma keys_dict_pop (k x : string) (d : Dict) :
  In x (keys (dict_pop k d)) <-> In x (keys d) /\ x <> k.
Proof.
  unfold keys, dict_pop. rewrite !in_map_iff. split.
  - intros (kv & <- & H). apply filter_In in H. destruct H as [H E].
    split; [eauto|]. intros Hk. rewrite Hk, String.eqb_refl in E.
    discriminate.
  - intros ((kv & <- & H) & N). exists kv. split; [reflexivity|].
    apply filter_In. split; [assumption|].
    apply negb_true_iff, String.eqb_neq. exact N.
Qed.

Lemma closed_remove_node (n : string) (g : DiGraph) :
  closed g -> closed (remove_node n g).
Proof.
  intros C a b H. unfold remove_node in *. simpl in *.
  apply filter_In in H. destruct H as [H E].
  apply andb_true_iff in E. destruct E as [Ea Eb].
  apply negb_true_iff, String.eqb_neq in Ea, Eb. simpl in Ea, Eb.
  apply C in H. rewrite !keys_dict_pop. intuition.
Qed.

Lemma closed_remove (units : list string) (g : DiGraph) : closed g -> closed (remove units g).
Proof.
  unfold remove. generalize (keys (copy g)). intros l. revert g.
  induction l as [|n l IH]; intros g C; simpl; [exact C|].
  apply IH. destruct (existsb _ units); [now apply closed_remove_node | exact C].
Qed.

Lemma reachable_closed (g : DiGraph) : reachable g -> closed g.
Proof.
  induction 1.
  - intros a b [].
  - rewrite parse_run. now apply closed_run.
  - rewrite resolve_run. now apply closed_run.
  - now apply closed_remove.
Qed.

(* ================================================================== *)
(** ** Lower case *)

Lemma in_op_keys_parse (filepath : Path) (provides uses : list string)
      (x : string) :
  In x (op_keys (parse_ops filepath provides uses)) ->
  (exists p, In p provides /\ (x = lower p \/ x = lower p +++ ".*"))
  \/ (exists u, In u uses /\ x = lower u).
Proof.
  unfold op_keys, parse_ops. rewrite in_flat_map.
  intros (o & Ho & Hx). apply in_flat_map in Ho. destruct Ho as (p & Hp & Ho).
  unfold provide_ops in Ho. simpl in Ho. rewrite in_app_iff in Ho.
  destruct Ho as [<-|[Ho|Ho]].
  - simpl in Hx. destruct Hx as [<-|[]]. left. eauto.
  - apply in_flat_map in Ho. destruct Ho as (u & Hu & Ho).
    destruct (String.eqb (lower p) (lower u)); simpl in Ho; [contradiction|].
    destruct Ho as [<-|[]]. simpl in Hx.
    destruct Hx as [<-|[<-|[]]]; [left | right]; eauto.
  - destruct (Nat.eqb _ 1); simpl in Ho; [|contradiction].
    destruct Ho as [<-|[]]. simpl in Hx. destruct Hx as [<-|[]].
    left. eauto.
Qed.

Lemma lower_ids_parse (order : SetOrder) (filepath : Path)
      (source library : string) (g : DiGraph) :
  lower_ids g -> lower_ids (parse order filepath source library g).
Proof.
  intros L k H. rewrite parse_run, keys_run in H. destruct H as [H|H].
  - now apply L.
  - apply in_op_keys_parse in H.
    destruct H as [(p & _ & [->| ->])|(u & _ & ->)].
    + apply lower_idem.
    + rewrite lower_append, lower_idem. reflexivity.
    + apply lower_idem.
Qed.

Lemma keys_remove (units : list string) (g : DiGraph) (x : string) :
  In x (keys (nodes (remove units g))) -> In x (keys (nodes g)).
Proof.
  unfold remove. generalize (keys (copy g)). intros l. revert g.
  induction l as [|n l IH]; intros g H; simpl in H; [exact H|].
  apply IH in H. destruct (existsb _ units); [|exact H].
  unfold remove_node in H. simpl in H. now apply keys_dict_pop in H.
Qed.

Lemma reachable_lower (g : DiGraph) : reachable g -> lower_ids g.
Proof.
  induction 1.
  - intros k [].
  - now apply lower_ids_parse.
  - intros k H0. rewrite nodes_resolve in H0. now apply IHreachable.
  - intros k H0. apply keys_remove in H0. now apply IHreachable.
Qed.

(* ================================================================== *)
(** ** Pruning *)

Lemma filter_twice {A} (f h : A -> bool) (l : list A) :
  filter f (filter h l) = filter (fun x => h x && f x) l.
Proof.
  induction l as [|x l IH]; simpl; [reflexivity|].
  destruct (h x); simpl; [destruct (f x)|]; now rewrite IH.
Qed.

Lemma filter_all {A} (f : A -> bool) (l : list A) :
  (forall x, In x l -> f x = true) -> filter f l = l.
Proof.
  induction l as [|x l IH]; intros H; simpl; [reflexivity|].
  rewrite (H x (or_introl eq_refl)), IH; [reflexivity|].
  intros y Hy. apply H. now right.
Qed.

Lemma kept_step (units : list string) (n : string) (l : list string)
      (k : string) :
  kept units (n :: l) k
  = (if in_units units n then negb (String.eqb k n) else true)
    && kept units l k.
Proof.
  unfold kept, mem. simpl.
  destruct (String.eqb k n) eqn:E.
  - apply String.eqb_eq in E. subst k.
    destruct (in_units units n); reflexivity.
  - simpl. destruct (in_units units n); reflexivity.
Qed.

Lemma remove_fold (units : list string) (l : list string) (g : DiGraph) :
  let r := fold_left
             (fun acc n =>
                if existsb (fun unit => startswith n (unit +++ ".")) units
                then remove_node n acc else acc) l g in
  nodes r = filter (fun kv => kept units l (fst kv)) (nodes g)
  /\ edges r = filter (fun e => kept units l (fst e) && kept units l (snd e))
                      (edges g).
Proof.
  revert g. induction l as [|n l IH]; intros g; simpl.
  - split; symmetry; apply filter_all; intros x _; unfold kept, mem; simpl;
      rewrite ?andb_false_r; reflexivity.
  - specialize (IH (if existsb (fun unit => startswith n (unit +++ ".")) units
                    then remove_node n g else g)).
    simpl in IH. destruct IH as [IHn IHe]. rewrite IHn, IHe.
    fold (in_units units n). destruct (in_units units n) eqn:U.
    + unfold remove_node. simpl. unfold dict_pop. rewrite !filter_twice.
      split; apply filter_ext; intros x; rewrite !kept_step, U.
      * reflexivity.
      * destruct (String.eqb (fst x) n), (String.eqb (snd x) n); simpl;
          rewrite ?andb_false_r; try reflexivity.
    + split; apply filter_ext; intros x; rewrite !kept_step, U; reflexivity.
Qed.

Lemma mem_In (k : string) (l : list string) : mem k l = true <-> In k l.
Proof. apply existsb_eqb_In. Qed.

Lemma remove_spec (units : list string) (g : DiGraph) :
  closed g ->
  nodes (remove units g)
  = filter (fun kv => negb (in_units units (fst kv))) (nodes g)
  /\ edges (remove units g)
     = filter (fun e => negb (in_units units (fst e))
                        && negb (in_units units (snd e))) (edges g).
Proof.
  intros C. unfold remove, copy.
  destruct (remove_fold units (keys (nodes g)) g) as [En Ee].
  rewrite En, Ee. split; apply filter_ext_in.
  - intros [k v] H. unfold kept. simpl.
    assert (M : mem k (keys (nodes g)) = true).
    { apply mem_In. unfold keys. apply in_map_iff. exists (k, v). auto. }
    now rewrite M, andb_true_r.
  - intros [a b] H. apply C in H. destruct H as [Ha Hb].
    apply mem_In in Ha, Hb. unfold kept. simpl.
    now rewrite Ha, Hb, !andb_true_r.
Qed.

(* ================================================================== *)
(** ** Streams *)

Lemma seq_done_l (a : Outcome) : done ;; a = a.
Proof. destruct a. reflexivity. Qed.

Lemma seq_assoc (a b c : Outcome) : a ;; (b ;; c) = (a ;; b) ;; c.
Proof.
  unfold seq. destruct (raised a) eqn:Ea; simpl.
  - now rewrite Ea.
  - destruct (raised b) eqn:Eb; simpl.
    + now rewrite Eb.
    + now rewrite !app_assoc.
Qed.

Lemma write_nodes_app (root : Path) (g : DiGraph) (l1 l2 : list string) :
  write_nodes root g (l1 ++ l2)
  = write_nodes root g l1 ;; write_nodes root g l2.
Proof.
  induction l1 as [|n l1 IH]; simpl.
  - now rewrite seq_done_l.
  - now rewrite IH, seq_assoc.
Qed.

(* ================================================================== *)
(** ** The placeholder [ANY] *)

Lemma replace_absent (c : ascii) (r s : string) :
  has_char c s = false -> replace_char c r s = s.
Proof.
  induction s as [|d s IH]; simpl; [reflexivity|].
  destruct (Ascii.eqb d c); simpl; [discriminate|].
  intros H. now rewrite IH.
Qed.

Lemma lower_ascii_not_A (c : ascii) : lower_ascii c = c -> c <> "A"%char.
Proof. intros H ->. discriminate. Qed.

Lemma lower_no_A (s : string) : lower s = s -> has_char "A" s = false.
Proof.
  induction s as [|c s IH]; simpl; [reflexivity|].
  intros H. injection H as Hc Hs.
  apply lower_ascii_not_A in Hc. apply Ascii.eqb_neq in Hc.
  rewrite Hc. simpl. now apply IH.
Qed.

Lemma prefix_head (c : ascii) (n hay : string) :
  String.prefix (String c n) hay = true -> has_char c hay = true.
Proof.
  destruct hay as [|d hay]; simpl; [discriminate|].
  destruct (ascii_dec c d) as [->|]; [|discriminate].
  now rewrite Ascii.eqb_refl.
Qed.

Lemma contains_head (c : ascii) (n hay : string) :
  contains (String c n) hay = true -> has_char c hay = true.
Proof.
  induction hay as [|d hay IH].
  - simpl. discriminate.
  - intros H. change (contains (String c n) (String d hay))
      with (String.prefix (String c n) (String d hay)
            || contains (String c n) hay) in H.
    apply orb_true_iff in H. destruct H as [H|H].
    + now apply prefix_head in H.
    + simpl. rewrite (IH H). apply orb_true_r.
Qed.

Lemma no_ANY (n : string) :
  lower n = n -> has_char "*" n = false -> contains "ANY" (du_name n) = false.
Proof.
  intros L S. unfold du_name. rewrite (replace_absent _ _ _ S).
  destruct (contains "ANY" n) eqn:E; [|reflexivity].
  apply contains_head in E. rewrite (lower_no_A n L) in E. discriminate.
Qed.

Lemma write_node_missing (root : Path) (g : DiGraph) (n : string) :
  lower n = n -> has_char "*" n = false ->
  dict_get n (nodes g) = Some None ->
  write_node root g n = eprint (warning n).
Proof.
  intros L S G. unfold write_node. rewrite G.
  rewrite (no_ANY n L S). simpl.
  unfold du_name. now rewrite (replace_absent _ _ _ S).
Qed.

(* ================================================================== *)
(** ** Object rules *)

Lemma append_cancel_r (a b c : string) : a +++ c = b +++ c -> a = b.
Proof.
  revert b. induction a as [|x a IH]; intros [|y b] H; simpl in H.
  - reflexivity.
  - apply (f_equal String.length) in H. simpl in H.
    rewrite length_append in H. lia.
  - apply (f_equal String.length) in H. simpl in H.
    rewrite length_append in H. lia.
  - injection H as -> H. f_equal. now apply IH.
Qed.

Lemma du_name_inj (a b : string) :
  lower a = a -> lower b = b -> du_name a = du_name b -> a = b.
Proof.
  unfold du_name. revert b.
  induction a as [|x a IH]; intros [|y b] La Lb H; simpl in *.
  - reflexivity.
  - destruct (Ascii.eqb y "*"); discriminate.
  - destruct (Ascii.eqb x "*"); discriminate.
  - injection La as Lx La. injection Lb as Ly Lb.
    destruct (Ascii.eqb x "*") eqn:Ex, (Ascii.eqb y "*") eqn:Ey.
    + apply Ascii.eqb_eq in Ex, Ey. subst x y.
      simpl in H. injection H as H. f_equal. now apply IH.
    + simpl in H. injection H as H _.
      apply lower_ascii_not_A in Ly. congruence.
    + simpl in H. injection H as H _.
      apply lower_ascii_not_A in Lx. congruence.
    + injection H as -> H. f_equal. now apply IH.
Qed.

Lemma dep_chunk_inj (a b : string) :
  lower a = a -> lower b = b -> dep_chunk a = dep_chunk b -> a = b.
Proof.
  unfold dep_chunk. intros La Lb H. apply append_cancel_r in H.
  simpl in H. injection H as H. now apply du_name_inj.
Qed.

Lemma write_obj_deps_closed (g : DiGraph) (node : Attrs) (deps : list Edge) :
  (forall e, In e deps -> In (snd e) (keys (nodes g))) ->
  write_obj_deps g node deps
  = {| out := map dep_chunk (filter (is_listed g node) (map snd deps));
       err := []; raised := None |}.
Proof.
  induction deps as [|[x d] deps IH]; intros H; [reflexivity|].
  simpl. unfold is_listed at 1.
  assert (K : dict_in d (nodes g) = true).
  { apply dict_in_keys. apply (H (x, d)). now left. }
  rewrite dict_in_get in K.
  destruct (dict_get d (nodes g)) as [a|]; [|discriminate].
  rewrite IH by (intros e He; apply H; now right).
  destruct (file_differs node a); reflexivity.
Qed.

Lemma in_out_edges (g : DiGraph) (n d : string) :
  In d (map snd (out_edges n g)) <-> In (n, d) (edges g).
Proof.
  unfold out_edges. rewrite in_map_iff. split.
  - intros ([a b] & <- & H). apply filter_In in H. destruct H as [H E].
    simpl in *. apply String.eqb_eq in E. now subst.
  - intros H. exists (n, d). split; [reflexivity|].
    apply filter_In. split; [assumption | apply String.eqb_refl].
Qed.

Lemma file_differs_iff (f : Path) (a : Attrs) :
  file_differs (Some f) a = true <-> a <> Some f.
Proof.
  destruct a as [q|]; simpl.
  - unfold path_eqb. destruct (list_eq_dec string_dec f q) as [->|N]; simpl.
    + split; [discriminate | intros H; now elim H].
    + split; [intros _ E; injection E as E; now subst | reflexivity].
  - split; [discriminate | reflexivity].
Qed.

Lemma is_listed_iff (g : DiGraph) (f : Path) (d : string) :
  In d (keys (nodes g)) ->
  is_listed g (Some f) d = true <-> dict_get d (nodes g) <> Some (Some f).
Proof.
  intros K. apply dict_in_keys in K. rewrite dict_in_get in K.
  unfold is_listed. destruct (dict_get d (nodes g)) as [a|]; [|discriminate].
  rewrite file_differs_iff. split; intros H E; apply H.
  - now injection E.
  - now rewrite E.
Qed.

Lemma out_seq (a b : Outcome) :
  raised a = None -> out (a ;; b) = out a ++ out b.
Proof. intros H. unfold seq. now rewrite H. Qed.

Lemma raised_seq (a b : Outcome) :
  raised a = None -> raised (a ;; b) = raised b.
Proof. intros H. unfold seq. now rewrite H. Qed.

(* ================================================================== *)
(** ** One instance and the class-level containers

    Seen through the instance they are called on, the methods of the
    class act as the functions on [DiGraph] do. *)

Lemma nth_set_nth {A} (i : nat) (x d : A) (l : list A) :
  i < List.length l -> nth i (ClassLevel.set_nth i x l) d = x.
Proof.
  revert i. induction l as [|y l IH]; intros [|i] H; simpl in *;
    try lia; [reflexivity | apply IH; lia].
Qed.

Lemma view_add_node (self : nat) (node : string) (kwargs : Attrs)
      (w : ClassLevel.World) :
  ClassLevel.view self (ClassLevel.add_node self node kwargs w)
  = add_node node kwargs (ClassLevel.view self w).
Proof. reflexivity. Qed.

Lemma view_remove_node (self : nat) (node : string) (w : ClassLevel.World) :
  self < List.length (ClassLevel.own_edges w) ->
  ClassLevel.view self (ClassLevel.remove_node self node w)
  = remove_node node (ClassLevel.view self w).
Proof.
  intros H. unfold ClassLevel.view, remove_node. simpl. f_equal.
  unfold ClassLevel.get_edges at 1. simpl. now rewrite nth_set_nth.
Qed.

Lemma view_add_edge (self : nat) (a b : string) (w : ClassLevel.World) :
  self < List.length (ClassLevel.own_edges w) ->
  ClassLevel.view self (ClassLevel.add_edge self a b w)
  = add_edge a b (ClassLevel.view self w).
Proof.
  intros H. unfold ClassLevel.view, add_edge, ClassLevel.add_edge,
              ClassLevel.get_nodes, ClassLevel.get_edges.
  simpl.
  destruct (dict_in a (ClassLevel.cls_nodes w)); simpl;
    match goal with |- context [dict_in b ?d] => destruct (dict_in b d) end;
    simpl;
    destruct (nth self (ClassLevel.own_edges w) None) eqn:E; simpl;
    rewrite ?nth_set_nth by exact H; rewrite ?E; reflexivity.
Qed.

(** Any instance sees the node that any other instance adds. *)
Lemma nodes_shared (a b : nat) (node : string) (kwargs : Attrs)
      (w : ClassLevel.World) :
  ClassLevel.get_nodes b (ClassLevel.add_node a node kwargs w)
  = dict_set node kwargs (ClassLevel.get_nodes b w).
Proof. reflexivity. Qed.

(* ================================================================== *)
(** ** Groups *)

Lemma all_chars_append (f : ascii -> bool) (a b : string) :
  all_chars f (a +++ b) = all_chars f a && all_chars f b.
Proof.
  induction a as [|c a IH]; simpl; [reflexivity|].
  now rewrite IH, andb_assoc.
Qed.

Lemma append_nonempty_r (a : string) (c : ascii) (b : string) :
  a +++ String c b <> "".
Proof. destruct a; discriminate. Qed.

Lemma match_here_groups (p : regex) :
  forall s m rest, match_here p s = Some (m, rest) -> groups_conform p m.
Proof.
  unfold groups_conform.
  induction p as [|it p IH]; intros s m rest H.
  - simpl in H. injection H as <- _. constructor.
  - destruct it as [a|a|name [a|]].
    + simpl in H. destruct s as [|c s]; [discriminate|].
      destruct (atom_matches a c); [|discriminate]. exact (IH _ _ _ H).
    + simpl in H. revert H. induction s as [|c s IHs]; intros H;
        [discriminate|].
      destruct (atom_matches a c); [|discriminate].
      match type of H with
      | match ?x with _ => _ end = _ => destruct x as [r|] eqn:E
      end.
      * apply IHs. now rewrite <- H.
      * exact (IH _ _ _ H).
    + simpl in H. simpl.
      assert (K : forall s acc,
                 all_chars (atom_matches a) acc = true ->
                 (fix more (acc s : string) {struct s}
                    : option (rmatch * string) :=
                    match s with
                    | "" => None
                    | String c s' =>
                        if atom_matches a c
                        then
                          match more (acc +++ String c "") s' with
                          | Some r => Some r
                          | None =>
                              match match_here p s' with
                              | Some (gs, rest) =>
                                  Some ((name, acc +++ String c "") :: gs, rest)
                              | None => None
                              end
                          end
                        else None
                    end) acc s = Some (m, rest) ->
                 Forall2 (fun spec g => fst spec = fst g
                                        /\ conforms (snd spec) (snd g))
                         ((name, Some a) :: group_specs p) m).
      { clear H s. intros s. induction s as [|c s IHs]; intros acc A H;
          [discriminate|].
        destruct (atom_matches a c) eqn:M; [|discriminate].
        assert (A' : all_chars (atom_matches a) (acc +++ String c "") = true).
        { rewrite all_chars_append, A. simpl. now rewrite M. }
        match type of H with
        | match ?x with _ => _ end = _ => destruct x as [r|] eqn:E
        end.
        - apply (IHs (acc +++ String c "") A'). now rewrite <- H.
        - destruct (match_here p s) as [[gs r]|] eqn:E2; [|discriminate].
          injection H as <- <-. constructor.
          + simpl. split; [reflexivity|].
            split; [apply append_nonempty_r | exact A'].
          + exact (IH _ _ _ E2). }
      exact (K s "" eq_refl H).
    + simpl in H. destruct (match_here p s) as [[gs r]|] eqn:E;
        [|discriminate].
      injection H as <- <-. simpl. constructor.
      * simpl. auto.
      * exact (IH _ _ _ E).
Qed.

Lemma finditer_groups (p : regex) (s : string) (skip : nat) (m : rmatch) :
  In m (finditer_from p skip s) -> groups_conform p m.
Proof.
  revert skip. induction s as [|c s IH]; intros skip H.
  - destruct skip; simpl in H; [|contradiction].
    destruct (match_here p "") as [[gs r]|] eqn:E; [|contradiction].
    destruct H as [<-|[]]. exact (match_here_groups _ _ _ _ E).
  - destruct skip as [|k].
    + cbn [finditer_from] in H.
      destruct (match_here p (String c s)) as [[gs r]|] eqn:E.
      * destruct H as [<-|H]; [exact (match_here_groups _ _ _ _ E)|].
        exact (IH _ H).
      * exact (IH _ H).
    + exact (IH _ H).
Qed.

Lemma matches_of_groups (res : list regex) (src : string) (m : rmatch) :
  In m (matches_of res src) ->
  exists re, In re res /\ groups_conform re m.
Proof.
  unfold matches_of. rewrite in_flat_map. intros (re & Hre & H).
  exists re. split; [assumption|]. exact (finditer_groups _ _ _ _ H).
Qed.

Lemma group_conforms (specs : list (string * option atom)) (m : rmatch)
      (name : string) (b : option atom) :
  Forall2 (fun spec g => fst spec = fst g /\ conforms (snd spec) (snd g))
          specs m ->
  spec_of name specs = Some b -> conforms b (group name m).
Proof.
  induction 1 as [|[n b'] [n' v] specs m [E C] F IH]; simpl.
  - discriminate.
  - simpl in E, C. subst n'. destruct (String.eqb n name); [|exact IH].
    intros H. injection H as <-. exact C.
Qed.

(** The [name] of a match of a pattern whose group [name] repeats word
    characters is a word. *)
Lemma group_word (res : list regex) (name src : string) (m : rmatch) :
  (forall re, In re res -> word_group name re) ->
  In m (matches_of res src) ->
  group name m <> "" /\ all_chars is_word (group name m) = true.
Proof.
  intros W H. apply matches_of_groups in H. destruct H as (re & Hre & G).
  exact (group_conforms _ _ _ _ G (W re Hre)).
Qed.

(* ================================================================== *)
(** ** No defined unit ends in a star *)

Lemma last_char_append (a b : string) :
  b <> "" -> last_char (a +++ b) = last_char b.
Proof.
  intros N. induction a as [|c a IH]; [reflexivity|].
  change (String c a +++ b) with (String c (a +++ b)).
  destruct (a +++ b) eqn:E.
  - destruct a; [simpl in E; contradiction | discriminate].
  - exact IH.
Qed.

Lemma lower_nonempty (s : string) : s <> "" -> lower s <> "".
Proof. destruct s; [contradiction | discriminate]. Qed.

Lemma ends_star_append (a b : string) :
  b <> "" -> ends_star (lower (a +++ b)) = ends_star (lower b).
Proof.
  intros N. unfold ends_star.
  now rewrite lower_append, last_char_append by now apply lower_nonempty.
Qed.

Lemma word_not_star (c : ascii) :
  is_word c = true -> Ascii.eqb (lower_ascii c) "*" = false.
Proof. destruct c as [[] [] [] [] [] [] [] []]; vm_compute; congruence. Qed.

Lemma ends_star_word (s : string) :
  all_chars is_word s = true -> ends_star (lower s) = false.
Proof.
  unfold ends_star. induction s as [|c s IH]; intros H; [reflexivity|].
  simpl in H. apply andb_true_iff in H. destruct H as [Hc Hs].
  destruct s as [|d s].
  - simpl. now apply word_not_star.
  - exact (IH Hs).
Qed.

Lemma ends_star_wildcard (s : string) : ends_star (s +++ ".*") = true.
Proof.
  unfold ends_star. now rewrite last_char_append by discriminate.
Qed.

Lemma word_groups_defs :
  (forall re, In re PACKAGE_DEF_REGEX -> word_group "name" re)
  /\ (forall re, In re ENTITY_DEF_REGEX -> word_group "name" re)
  /\ (forall re, In re PACKAGE_BODY_DEF_REGEX -> word_group "name" re)
  /\ (forall re, In re ARCH_DEF_REGEX -> word_group "name" re)
  /\ (forall re, In re PSL_REGEX -> word_group "name" re).
Proof.
  repeat split; intros re H; simpl in H;
    repeat (destruct H as [<-|H]; [reflexivity|]); contradiction.
Qed.

Lemma defines_no_star (src library p : string) :
  In p (fst (_parse_file src library)) -> ends_star (lower p) = false.
Proof.
  destruct word_groups_defs as (W1 & W2 & W3 & W4 & W5).
  intros H. apply in_defines in H.
  destruct H as [(m & Hm & ->)|[(m & Hm & ->)|H]].
  - destruct (group_word _ _ _ _ W1 Hm) as [N A].
    rewrite !ends_star_append; [now apply ends_star_word | exact N |].
    destruct (group "name" m); [contradiction | discriminate].
  - destruct (group_word _ _ _ _ W2 Hm) as [N A].
    rewrite !ends_star_append; [now apply ends_star_word | exact N |].
    destruct (group "name" m); [contradiction | discriminate].
  - apply in_comb_define in H.
    destruct H as [(m & Hm & ->)|[(m & Hm & ->)|(m & Hm & ->)]].
    + unfold body_define.
      rewrite !ends_star_append; try discriminate; [reflexivity|].
      apply append_nonempty_r.
    + destruct (group_word _ _ _ _ W4 Hm) as [N A]. unfold arch_define.
      rewrite 4!ends_star_append;
        [now apply ends_star_word | exact N | discriminate | |discriminate].
      destruct (group "entity" m); discriminate.
    + destruct (group_word _ _ _ _ W5 Hm) as [N A]. unfold psl_define.
      rewrite 6!ends_star_append;
        [now apply ends_star_word | exact N | discriminate | | discriminate
         | | discriminate].
      * destruct (str_or (group "architecture" m) "*"); discriminate.
      * destruct (group "entity" m); discriminate.
Qed.

Lemma define_not_wildcard (src library p q : string) :
  In p (fst (_parse_file src library)) -> lower p <> q +++ ".*".
Proof.
  intros H E. apply defines_no_star in H.
  rewrite E, ends_star_wildcard in H. discriminate.
Qed.

(* ================================================================== *)
(** ** The entry of a key after a trace *)

Lemma dict_get_ensure (a k : string) (g : DiGraph) :
  dict_get k (nodes (if dict_in a (nodes g) then g else add_node a None g))
  = match dict_get k (nodes g) with
    | Some y => Some y
    | None => if String.eqb a k then Some None else None
    end.
Proof.
  destruct (dict_in a (nodes g)) eqn:D; rewrite dict_in_get in D.
  - destruct (String.eqb a k) eqn:E.
    + apply String.eqb_eq in E. subst k.
      destruct (dict_get a (nodes g)); [reflexivity | discriminate].
    + now destruct (dict_get k (nodes g)).
  - unfold add_node. cbn [nodes]. rewrite dict_get_set.
    destruct (String.eqb a k) eqn:E.
    + apply String.eqb_eq in E. subst k.
      destruct (dict_get a (nodes g)); [discriminate | reflexivity].
    + now destruct (dict_get k (nodes g)).
Qed.

Lemma dict_get_apply_op (g : DiGraph) (o : GraphOp) (k : string) :
  dict_get k (nodes (apply_op g o)) = key_step o k (dict_get k (nodes g)).
Proof.
  destruct o as [k' v|a b]; unfold apply_op, key_step.
  - unfold add_node. cbn [nodes]. apply dict_get_set.
  - unfold add_edge. cbn [nodes fold_left].
    rewrite dict_get_ensure, dict_get_ensure.
    destruct (dict_get k (nodes g)); [reflexivity|].
    destruct (String.eqb a k), (String.eqb b k); reflexivity.
Qed.

Lemma dict_get_run (ops : list GraphOp) (g : DiGraph) (k : string) :
  dict_get k (nodes (run ops g))
  = fold_left (fun x o => key_step o k x) ops (dict_get k (nodes g)).
Proof.
  revert g. induction ops as [|o ops IH]; intros g; [reflexivity|].
  change (run (o :: ops) g) with (run ops (apply_op g o)).
  rewrite IH, dict_get_apply_op. reflexivity.
Qed.

Lemma key_fold (ops : list GraphOp) (k : string) (x : option Attrs) :
  fold_left (fun x o => key_step o k x) ops x
  = match last_node k ops with
    | Some a => Some a
    | None =>
        if touched k ops
        then match x with Some y => Some y | None => Some None end
        else x
    end.
Proof.
  revert x. induction ops as [|o ops IH]; intros x; [reflexivity|].
  cbn [fold_left last_node]. rewrite IH.
  destruct (last_node k ops) as [a|]; [reflexivity|].
  unfold touched. cbn [existsb]. fold (touched k ops).
  destruct o as [k' v|a b]; unfold key_step.
  - destruct (String.eqb k' k); [|reflexivity].
    now destruct (touched k ops).
  - destruct (String.eqb a k || String.eqb b k); simpl.
    + destruct (touched k ops), x; reflexivity.
    + destruct (touched k ops), x; reflexivity.
Qed.

Lemma last_node_in (k : string) (ops : list GraphOp) (a : Attrs) :
  last_node k ops = Some a -> In (OpNode k a) ops.
Proof.
  induction ops as [|o ops IH]; simpl; [discriminate|].
  destruct (last_node k ops) as [a'|].
  - intros H. right. now apply IH.
  - destruct o as [k' v|x y]; [|discriminate].
    destruct (String.eqb k' k) eqn:E; [|discriminate].
    apply String.eqb_eq in E. subst k'. intros H. injection H as ->.
    now left.
Qed.

Lemma last_node_none (k : string) (ops : list GraphOp) (a : Attrs) :
  last_node k ops = None -> ~ In (OpNode k a) ops.
Proof.
  induction ops as [|o ops IH]; simpl; [tauto|].
  destruct (last_node k ops) as [a'|]; [discriminate|].
  intros H [E|I]; [|now apply IH].
  subst o. rewrite String.eqb_refl in H. discriminate.
Qed.

Lemma touched_iff (k : string) (ops : list GraphOp) :
  touched k ops = true
  <-> exists a b, In (OpEdge a b) ops /\ (a = k \/ b = k).
Proof.
  unfold touched. rewrite existsb_exists. split.
  - intros ([k' v|a b] & I & H); [discriminate|].
    apply orb_true_iff in H. rewrite !String.eqb_eq in H. eauto.
  - intros (a & b & I & H). exists (OpEdge a b). split; [assumption|].
    apply orb_true_iff. now rewrite !String.eqb_eq.
Qed.

Lemma same_last_node (k : string) (l1 l2 : list GraphOp) :
  self_compat l1 -> (forall o, In o l1 <-> In o l2) ->
  last_node k l1 = last_node k l2.
Proof.
  intros C M.
  destruct (last_node k l1) as [a|] eqn:E1, (last_node k l2) as [b|] eqn:E2.
  - apply last_node_in in E1, E2. apply M in E2. f_equal. exact (C _ _ _ E1 E2).
  - apply last_node_in, M in E1. now apply (last_node_none _ _ a) in E2.
  - apply last_node_in, M in E2. now apply (last_node_none _ _ b) in E1.
  - reflexivity.
Qed.

Lemma same_touched (k : string) (l1 l2 : list GraphOp) :
  (forall o, In o l1 <-> In o l2) -> touched k l1 = touched k l2.
Proof.
  intros M. apply eq_true_iff_eq. rewrite !touched_iff.
  split; intros (a & b & I & H); exists a, b; split; auto; now apply M.
Qed.

(** Two traces with the same operations, none of which contradicts
    another, lead to the same graph. *)
Lemma run_equiv (l1 l2 : list GraphOp) (g : DiGraph) :
  self_compat l1 -> (forall o, In o l1 <-> In o l2) ->
  graph_equiv (run l1 g) (run l2 g).
Proof.
  intros C M. split.
  - intros k. rewrite !dict_get_run, !key_fold.
    now rewrite (same_last_node k l1 l2 C M), (same_touched k l1 l2 M).
  - intros [a b]. rewrite !edges_run, !in_app_iff, !in_op_edges.
    now rewrite (M (OpEdge a b)).
Qed.

(* ================================================================== *)
(** ** The trace of a file *)

Lemma in_parse_ops_node (filepath : Path) (provides uses : list string)
      (k : string) (a : Attrs) :
  In (OpNode k a) (parse_ops filepath provides uses)
  <-> exists p, In p provides
                /\ ((k = lower p /\ a = Some filepath)
                    \/ (k = lower p +++ ".*" /\ a = None
                        /\ count_char "." (lower p) = 1)).
Proof.
  unfold parse_ops. rewrite in_flat_map. split.
  - intros (p & Hp & H). exists p. split; [assumption|].
    unfold provide_ops in H. simpl in H. rewrite in_app_iff in H.
    destruct H as [H|[H|H]].
    + injection H as <- <-. now left.
    + apply in_flat_map in H. destruct H as (u & _ & H).
      destruct (String.eqb _ _); simpl in H; [contradiction|].
      destruct H as [H|[]]. discriminate.
    + destruct (Nat.eqb _ 1) eqn:E; simpl in H; [|contradiction].
      destruct H as [H|[]]. injection H as <- <-.
      apply Nat.eqb_eq in E. right. auto.
  - intros (p & Hp & [[-> ->]|(-> & -> & E)]); exists p;
      (split; [assumption|]); unfold provide_ops.
    + now left.
    + right. apply in_or_app. right. rewrite E. now left.
Qed.

Lemma in_file_ops (order order' : SetOrder) (filepath : Path)
      (source library : string) (o : GraphOp) :
  In o (file_ops order filepath source library)
  <-> In o (file_ops order' filepath source library).
Proof.
  unfold file_ops. destruct o as [k a|a b].
  - rewrite !in_parse_ops_node.
    split; intros (p & Hp & H); exists p;
      (split; [apply in_iter; now apply in_iter in Hp | exact H]).
  - rewrite !in_parse_ops_edge.
    split; intros (p & u & Hp & Hu & H); exists p, u;
      (split; [apply in_iter; now apply in_iter in Hp|]);
      (split; [apply in_iter; now apply in_iter in Hu | exact H]).
Qed.

Lemma parse_file_ops (order : SetOrder) (filepath : Path)
      (source library : string) (g : DiGraph) :
  parse order filepath source library g
  = run (file_ops order filepath source library) g.
Proof. apply parse_run. Qed.

Lemma node_of_file (order : SetOrder) (filepath : Path)
      (source library k : string) (a : Attrs) :
  In (OpNode k a) (file_ops order filepath source library) ->
  exists p, In p (fst (_parse_file source library))
            /\ ((k = lower p /\ a = Some filepath)
                \/ (k = lower p +++ ".*" /\ a = None)).
Proof.
  unfold file_ops. rewrite in_parse_ops_node. intros (p & Hp & H).
  apply in_iter in Hp. exists p. split; [assumption|]. tauto.
Qed.

(** Two [add_node] on one key, by the same file or by two files that
    define no common unit, give the key the same attributes. *)
Lemma node_compat (order order' : SetOrder) (fx fy : Path)
      (sx lx sy ly k : string) (a a' : Attrs) :
  (fx = fy
   \/ forall px py, In px (fst (_parse_file sx lx)) ->
                    In py (fst (_parse_file sy ly)) -> lower px <> lower py) ->
  In (OpNode k a) (file_ops order fx sx lx) ->
  In (OpNode k a') (file_ops order' fy sy ly) ->
  a = a'.
Proof.
  intros D Hx Hy. apply node_of_file in Hx, Hy.
  destruct Hx as (px & Ix & [[Kx ->]|[Kx ->]]),
           Hy as (py & Iy & [[Ky ->]|[Ky ->]]).
  - destruct D as [->|D]; [reflexivity|].
    exfalso. apply (D px py Ix Iy). congruence.
  - exfalso. apply (define_not_wildcard _ _ px (lower py) Ix). congruence.
  - exfalso. apply (define_not_wildcard _ _ py (lower px) Iy). congruence.
  - reflexivity.
Qed.

(* ================================================================== *)
(** * The properties of the scanner *)

(** C10. A file that defines nothing leaves the graph as it was: when the
    extraction of a file yields an empty set of defined units, [parse]
    returns the graph unchanged, whatever the file uses. *)
Theorem C10_use_only_file_changes_nothing
        (order : SetOrder) (filepath : Path) (source library : string)
        (g : DiGraph) :
  fst (_parse_file source library) = [] ->
  parse order filepath source library g = g.
Proof.
  intros H. unfold parse.
  destruct (_parse_file source library) as [provides uses].
  simpl in H. subst provides. now rewrite iter_nil.
Qed.

Lemma C10_witness :
  snd (_parse_file clauses_src "work") = ["ieee.std_logic_1164"; "work.util"]
  /\ parse insertion_order clauses_vhd clauses_src "work" counter_graph
     = counter_graph.
Proof.
  split; [reflexivity|].
  apply (C10_use_only_file_changes_nothing
           insertion_order clauses_vhd clauses_src "work" counter_graph).
  reflexivity.
Defined.

(** C4. Neither [parse] nor [resolve] creates a self-loop: the edge list
    after either call is the edge list before it followed by the edges the
    call created, and no created edge goes from a node to itself. *)
Theorem C4_no_self_loops
        (order : SetOrder) (filepath : Path) (source library : string)
        (g : DiGraph) :
  (exists created,
      edges (parse order filepath source library g) = edges g ++ created
      /\ Forall (fun e => fst e <> snd e) created)
  /\ (exists created,
         edges (resolve g) = edges g ++ created
         /\ Forall (fun e => fst e <> snd e) created).
Proof.
  split.
  - rewrite parse_run, edges_run. eexists. split; [reflexivity|].
    apply parse_no_self_loop.
  - rewrite resolve_run, edges_run. eexists. split; [reflexivity|].
    apply resolve_no_self_loop.
Qed.

(** C8. A second-level unit depends on its parent: for every package body
    and every architecture that a parsed file defines, the graph after
    [parse] holds the edge from the lower-cased unit to the lower-cased
    package, respectively entity, it belongs to. *)
Theorem C8_second_level_depends_on_parent
        (order : SetOrder) (filepath : Path) (source library : string)
        (g : DiGraph) :
  Forall (fun m =>
            In (lower (library +++ "." +++ group "name" m +++ ".body"),
                lower (library +++ "." +++ group "name" m))
               (edges (parse order filepath source library g)))
         (matches_of PACKAGE_BODY_DEF_REGEX source)
  /\ Forall (fun m =>
               In (lower (library +++ "." +++ group "entity" m +++ "."
                          +++ group "name" m),
                   lower (library +++ "." +++ group "entity" m))
                  (edges (parse order filepath source library g)))
            (matches_of ARCH_DEF_REGEX source).
Proof.
  assert (K : forall d u,
             In d (fst (_parse_src_to_defines_and_uses source library)) ->
             In u (snd (_parse_src_to_defines_and_uses source library)) ->
             String.length d <> String.length u ->
             In (lower d, lower u)
                (edges (parse order filepath source library g))).
  { intros d u Hd Hu Hl. rewrite parse_run, edges_run.
    apply in_or_app. right. apply in_op_edges, in_parse_ops_edge.
    exists d, u. repeat split.
    - apply in_iter, in_defines. auto.
    - apply in_iter, in_uses_comb, Hu.
    - apply String.eqb_neq. intros E. apply Hl.
      rewrite <- (length_lower d), <- (length_lower u). now rewrite E. }
  split; apply Forall_forall; intros m Hm; apply K.
  - apply in_comb_define. left. eauto.
  - apply in_comb_use. left. eauto.
  - rewrite !length_append. simpl. lia.
  - apply in_comb_define. right. left. eauto.
  - apply in_comb_use. right. left. eauto.
  - rewrite !length_append. simpl. lia.
Qed.

Lemma C8_witness :
  In ("work.util.body", "work.util")
     (edges (parse insertion_order pkg_vhd pkg_src "work" empty_graph))
  /\ In ("work.counter.rtl", "work.counter")
        (edges (parse insertion_order counter_vhd counter_src "work" empty_graph)).
Proof.
  split.
  - destruct (C8_second_level_depends_on_parent
                insertion_order pkg_vhd pkg_src "work" empty_graph) as [H _].
    rewrite Forall_forall in H.
    apply (H [("name", "util")]). vm_compute. auto.
  - destruct (C8_second_level_depends_on_parent
                insertion_order counter_vhd counter_src "work" empty_graph)
      as [_ H].
    rewrite Forall_forall in H.
    apply (H [("name", "rtl"); ("entity", "counter")]). vm_compute. auto.
Defined.

(** C1 (as the code has it). The wildcard pattern is searched for anywhere
    in the identifier and is not anchored at its end: in a graph that
    holds the nodes [work.counter], [work.counter.rtl],
    [work.counter.behav] and [*.counter], [resolve] adds the edges from
    [*.counter] to both architectures and to the entity [work.counter]
    as well. *)
Theorem C1_wildcard_resolution (g : DiGraph) :
  dict_in "work.counter" (nodes g) = true ->
  dict_in "work.counter.rtl" (nodes g) = true ->
  dict_in "work.counter.behav" (nodes g) = true ->
  dict_in "*.counter" (nodes g) = true ->
  In ("*.counter", "work.counter.rtl") (edges (resolve g))
  /\ In ("*.counter", "work.counter.behav") (edges (resolve g))
  /\ In ("*.counter", "work.counter") (edges (resolve g)).
Proof.
  intros He Hr Hb Hw. apply dict_in_keys in He, Hr, Hb, Hw.
  repeat split; apply in_edges_resolve; auto.
Qed.

Lemma C1_witness :
  In ("*.counter", "work.counter.rtl") (edges (resolve counter_graph))
  /\ In ("*.counter", "work.counter.behav") (edges (resolve counter_graph))
  /\ In ("*.counter", "work.counter") (edges (resolve counter_graph)).
Proof.
  apply (C1_wildcard_resolution counter_graph); reflexivity.
Defined.

(** C1 as stated fails on the graph of the small project: the edge from
    [*.counter] to [work.counter] is there after [resolve]. *)
Lemma C1_counterexample :
  ~ (In ("*.counter", "work.counter.rtl") (edges (resolve counter_graph))
     /\ In ("*.counter", "work.counter.behav") (edges (resolve counter_graph))
     /\ ~ In ("*.counter", "work.counter") (edges (resolve counter_graph))).
Proof.
  intros (_ & _ & H). apply H. vm_compute. tauto.
Qed.

(** C2. A second [resolve] adds no new edge: it leaves the node mapping
    as it is, and every edge it appends to the edge list is already in
    the list that the first [resolve] left. *)
Theorem C2_resolve_idempotent (g : DiGraph) :
  nodes (resolve (resolve g)) = nodes (resolve g)
  /\ exists appended,
       edges (resolve (resolve g)) = edges (resolve g) ++ appended
       /\ incl appended (edges (resolve g))
       /\ incl (edges (resolve (resolve g))) (edges (resolve g)).
Proof.
  split; [apply nodes_resolve|].
  exists (op_edges (resolve_ops (keys (nodes g)))).
  assert (E : edges (resolve (resolve g))
              = edges (resolve g) ++ op_edges (resolve_ops (keys (nodes g)))).
  { rewrite (edges_resolve (resolve g)), nodes_resolve. reflexivity. }
  assert (I : incl (op_edges (resolve_ops (keys (nodes g))))
                   (edges (resolve g))).
  { rewrite edges_resolve. apply incl_appr, incl_refl. }
  repeat split; [exact E | exact I |].
  rewrite E. apply incl_app; [apply incl_refl | exact I].
Qed.

(** C5. Pruning is complete: in every graph the script can build, after
    [remove] with the libraries [ieee] and [std] no node whose identifier
    starts with [ieee.] or [std.] is left in the node mapping and no edge
    has such a node at either end, while all other nodes (with their
    attributes and order) and all edges between them are as before. *)
Theorem C5_pruning_complete (g : DiGraph) :
  reachable g ->
  let g' := remove ["ieee"; "std"] g in
  (forall k, In k (keys (nodes g')) -> std_unit k = false)
  /\ (forall a b, In (a, b) (edges g') ->
                  std_unit a = false /\ std_unit b = false)
  /\ nodes g' = filter (fun kv => negb (std_unit (fst kv))) (nodes g)
  /\ edges g' = filter (fun e => negb (std_unit (fst e))
                                 && negb (std_unit (snd e))) (edges g).
Proof.
  intros R g'.
  destruct (remove_spec ["ieee"; "std"] g (reachable_closed g R)) as [En Ee].
  assert (U : forall k, in_units ["ieee"; "std"] k = std_unit k).
  { intros k. unfold in_units, std_unit. simpl. now rewrite orb_false_r. }
  assert (En' : nodes g' = filter (fun kv => negb (std_unit (fst kv))) (nodes g)).
  { unfold g'. rewrite En. apply filter_ext. intros kv. now rewrite U. }
  assert (Ee' : edges g' = filter (fun e => negb (std_unit (fst e))
                                            && negb (std_unit (snd e)))
                                  (edges g)).
  { unfold g'. rewrite Ee. apply filter_ext. intros e. now rewrite !U. }
  repeat split; try assumption.
  - intros k H. rewrite En' in H. unfold keys in H.
    apply in_map_iff in H. destruct H as (kv & <- & H).
    apply filter_In in H. destruct H as [_ H]. now apply negb_true_iff in H.
  - rewrite Ee' in H. apply filter_In in H. destruct H as [_ H].
    apply andb_true_iff in H. destruct H as [H _].
    now apply negb_true_iff in H.
  - rewrite Ee' in H. apply filter_In in H. destruct H as [_ H].
    apply andb_true_iff in H. destruct H as [_ H].
    now apply negb_true_iff in H.
Qed.

Lemma C5_witness :
  dict_in "ieee.std_logic_1164" (nodes counter_graph) = true
  /\ let g' := remove ["ieee"; "std"] counter_graph in
     (forall k, In k (keys (nodes g')) -> std_unit k = false)
     /\ (forall a b, In (a, b) (edges g') ->
                     std_unit a = false /\ std_unit b = false)
     /\ nodes g' = filter (fun kv => negb (std_unit (fst kv)))
                          (nodes counter_graph)
     /\ edges g' = filter (fun e => negb (std_unit (fst e))
                                    && negb (std_unit (snd e)))
                          (edges counter_graph).
Proof.
  split; [reflexivity|].
  apply (C5_pruning_complete counter_graph).
  unfold counter_graph. apply reach_parse, reach_parse, reach_new.
Defined.

(** C7. A missing definition is not fatal: for a node of a graph the
    script can build that has no [file] and no wildcard in its
    identifier, the loop of [write_makefile_rules] prints one warning to
    [sys.stderr] and nothing to [sys.stdout], raises nothing, and goes on
    with the nodes that follow. *)
Theorem C7_missing_definition_not_fatal
        (root : Path) (g : DiGraph) (before after : list string) (n : string) :
  reachable g ->
  keys (nodes g) = before ++ n :: after ->
  dict_get n (nodes g) = Some None ->
  has_char "*" n = false ->
  out (write_node root g n) = []
  /\ err (write_node root g n) = [warning n +++ endl]
  /\ raised (write_node root g n) = None
  /\ write_makefile_rules root g
     = write_nodes root g before ;; eprint (warning n)
       ;; write_nodes root g after.
Proof.
  intros R K G S.
  assert (L : lower n = n).
  { apply (reachable_lower g R). rewrite K. apply in_elt. }
  pose proof (write_node_missing root g n L S G) as W.
  rewrite W. repeat split.
  unfold write_makefile_rules. rewrite K, write_nodes_app. simpl.
  now rewrite W, seq_assoc.
Qed.

Lemma C7_witness :
  let n := "work.missing" in
  out (write_node root_dir project_graph n) = []
  /\ err (write_node root_dir project_graph n) = [warning n +++ endl]
  /\ raised (write_node root_dir project_graph n) = None
  /\ write_makefile_rules root_dir project_graph
     = write_nodes root_dir project_graph
         ["work.counter"; "work.counter.*"; "work.counter.rtl";
          "work.counter.behav"; "work.top"]
       ;; eprint (warning n)
       ;; write_nodes root_dir project_graph
            ["*.counter"; "work.top.*"; "work.top.a"].
Proof.
  apply (C7_missing_definition_not_fatal root_dir project_graph).
  - unfold project_graph, counter_graph.
    apply reach_resolve, reach_remove, reach_parse, reach_parse, reach_new.
  - reflexivity.
  - reflexivity.
  - reflexivity.
Defined.

(** C6. Same-file exclusion: for a node [n] of a graph the script can
    build whose [file] lies under the root, the object rule that
    [write_makefile_rules] prints for [n] consists of the object file, the
    dependency entries and a line end, and it lists the design-unit rule
    of a node [d] exactly when there is an edge from [n] to [d] and the
    [file] of [d] is not the [file] of [n] (a [d] without [file] is
    listed).  So an entity and an architecture of one file never list each
    other. *)
Theorem C6_same_file_exclusion
        (root : Path) (g : DiGraph) (n d : string) (f rel : Path) :
  reachable g ->
  dict_get n (nodes g) = Some (Some f) ->
  relative_to f root = Some rel ->
  In d (keys (nodes g)) ->
  let obj_file := "obj/" +++ path_str rel +++ ".o" in
  let deps := out (write_obj_deps g (Some f) (out_edges n g)) in
  (exists head tail,
      out (write_node root g n)
      = head ++ [(obj_file +++ ":") +++ " "] ++ deps ++ ["" +++ endl] ++ tail)
  /\ raised (write_node root g n) = None
  /\ (In (("du/" +++ du_name d) +++ " ") deps
      <-> In (n, d) (edges g) /\ dict_get d (nodes g) <> Some (Some f)).
Proof.
  intros R G Hrel K obj_file deps.
  pose proof (reachable_closed g R) as C.
  pose proof (reachable_lower g R) as L.
  assert (E : write_obj_deps g (Some f) (out_edges n g)
              = {| out := map dep_chunk
                            (filter (is_listed g (Some f))
                                    (map snd (out_edges n g)));
                   err := []; raised := None |}).
  { apply write_obj_deps_closed. intros [a b] H.
    unfold out_edges in H. apply filter_In in H. destruct H as [H _].
    now apply C in H. }
  assert (W : write_node root g n
              = print ("du/" +++ du_name n +++ ": " +++ obj_file) endl
                ;; print (String tab "@echo [DU] " +++ du_name n) endl
                ;; print (String tab "@mkdir -p $(@D)") endl
                ;; print (String tab "@touch $@") endl
                ;; (print (obj_file +++ ":") " "
                    ;; write_obj_deps g (Some f) (out_edges n g)
                    ;; print "" endl
                    ;; (if existsb (fun re => re_search re obj_file)
                                   TESTBENCH_FILE_REGEX
                        then print ("OBJS_TB += " +++ obj_file) endl
                        else print ("OBJS += " +++ obj_file) endl))).
  { unfold write_node. rewrite G, Hrel. fold obj_file.
    replace (String.eqb obj_file "") with false by reflexivity.
    rewrite andb_false_r. reflexivity. }
  split; [|split].
  - rewrite W. unfold deps.
    set (objs := if existsb _ TESTBENCH_FILE_REGEX then _ else _).
    assert (O : raised objs = None) by (unfold objs; now destruct (existsb _ _)).
    exists (out (print ("du/" +++ du_name n +++ ": " +++ obj_file) endl
                 ;; print (String tab "@echo [DU] " +++ du_name n) endl
                 ;; print (String tab "@mkdir -p $(@D)") endl
                 ;; print (String tab "@touch $@") endl)), (out objs).
    rewrite E.
    rewrite (out_seq _ (_ ;; _ ;; _ ;; objs)) by reflexivity.
    rewrite (out_seq _ objs) by reflexivity.
    rewrite (out_seq _ (print "" endl)) by reflexivity.
    rewrite (out_seq (print _ " ")) by reflexivity.
    rewrite <- !app_assoc. reflexivity.
  - rewrite W, E.
    destruct (existsb _ TESTBENCH_FILE_REGEX); reflexivity.
  - unfold deps. rewrite E. cbn [out].
    change (("du/" +++ du_name d) +++ " ") with (dep_chunk d).
    rewrite <- is_listed_iff by exact K.
    rewrite <- in_out_edges, <- filter_In. split.
    + intros H. apply in_map_iff in H. destruct H as (x & Hx & H).
      assert (Kx : In x (keys (nodes g))).
      { apply filter_In in H. destruct H as [H _].
        apply in_out_edges in H. now apply C in H. }
      apply dep_chunk_inj in Hx; [now subst | now apply L | now apply L].
    + apply in_map.
Qed.

Lemma C6_witness :
  let deps := out (write_obj_deps project_graph (Some top_vhd)
                                  (out_edges "work.top.a" project_graph)) in
  (In (("du/" +++ du_name "work.top") +++ " ") deps
   <-> In ("work.top.a", "work.top") (edges project_graph)
       /\ dict_get "work.top" (nodes project_graph) <> Some (Some top_vhd))
  /\ (In (("du/" +++ du_name "*.counter") +++ " ") deps
      <-> In ("work.top.a", "*.counter") (edges project_graph)
          /\ dict_get "*.counter" (nodes project_graph) <> Some (Some top_vhd)).
Proof.
  assert (R : reachable project_graph).
  { unfold project_graph, counter_graph.
    apply reach_resolve, reach_remove, reach_parse, reach_parse, reach_new. }
  assert (G : dict_get "work.top.a" (nodes project_graph) = Some (Some top_vhd))
    by (vm_compute; reflexivity).
  assert (P : relative_to top_vhd root_dir = Some ["vhdl"; "top.vhd"])
    by reflexivity.
  assert (K1 : In "work.top" (keys (nodes project_graph)))
    by (vm_compute; tauto).
  assert (K2 : In "*.counter" (keys (nodes project_graph)))
    by (vm_compute; tauto).
  split.
  - destruct (C6_same_file_exclusion
                root_dir project_graph "work.top.a" "work.top" top_vhd
                ["vhdl"; "top.vhd"] R G P K1) as (_ & _ & H).
    exact H.
  - destruct (C6_same_file_exclusion
                root_dir project_graph "work.top.a" "*.counter" top_vhd
                ["vhdl"; "top.vhd"] R G P K2) as (_ & _ & H).
    exact H.
Defined.

(** C9. The storage of two instances is not independent.  [nodes] and
    [edges] are containers of the class: after two graphs are constructed
    one after the other, a node added through the first is in the node
    mapping of the second, and an edge added through the first is in the
    edge list of the second. *)
Theorem C9_instances_share_storage :
  let (a, w1) := ClassLevel.construct ClassLevel.start in
  let (b, w2) := ClassLevel.construct w1 in
  a <> b
  /\ ClassLevel.get_nodes b w2 = []
  /\ ClassLevel.get_edges b w2 = []
  /\ ClassLevel.get_nodes b
       (ClassLevel.add_node a "work.counter" (Some counter_vhd) w2)
     = [("work.counter", Some counter_vhd)]
  /\ ClassLevel.get_edges b
       (ClassLevel.add_edge a "work.counter.rtl" "work.counter" w2)
     = [("work.counter.rtl", "work.counter")].
Proof.
  simpl. repeat split. discriminate.
Qed.

(** C3 (as the code has it). Insertion commutes for files that define no
    common unit: when no unit defined by the one file has the lower-case
    name of a unit defined by the other, parsing the two files in either
    order, and whatever the order in which the sets are walked, yields
    graphs with the same nodes, the same attributes (the [file] among
    them) and the same edges. *)
Theorem C3_insertion_commutes
        (order1 order2 order3 order4 : SetOrder)
        (file_a : Path) (source_a library_a : string)
        (file_b : Path) (source_b library_b : string) (g : DiGraph) :
  (forall pa pb,
      In pa (fst (_parse_file source_a library_a)) ->
      In pb (fst (_parse_file source_b library_b)) ->
      lower pa <> lower pb) ->
  graph_equiv
    (parse order2 file_b source_b library_b
           (parse order1 file_a source_a library_a g))
    (parse order4 file_a source_a library_a
           (parse order3 file_b source_b library_b g)).
Proof.
  intros D. rewrite !parse_file_ops, <- !run_app.
  apply run_equiv.
  - intros k a a' H1 H2. apply in_app_or in H1, H2.
    destruct H1 as [H1|H1], H2 as [H2|H2].
    + apply (node_compat _ _ _ _ _ _ _ _ _ _ _ (or_introl eq_refl) H1 H2).
    + apply (node_compat _ _ _ _ _ _ _ _ _ _ _ (or_intror D) H1 H2).
    + symmetry.
      apply (node_compat _ _ _ _ _ _ _ _ _ _ _ (or_intror D) H2 H1).
    + apply (node_compat _ _ _ _ _ _ _ _ _ _ _ (or_introl eq_refl) H1 H2).
  - intros o. rewrite !in_app_iff.
    rewrite (in_file_ops order1 order4), (in_file_ops order2 order3). tauto.
Qed.

Lemma C3_witness :
  graph_equiv
    (parse insertion_order top_vhd top_src "work"
           (parse insertion_order counter_vhd counter_src "work" empty_graph))
    (parse insertion_order counter_vhd counter_src "work"
           (parse insertion_order top_vhd top_src "work" empty_graph)).
Proof.
  apply (C3_insertion_commutes
           insertion_order insertion_order insertion_order insertion_order
           counter_vhd counter_src "work" top_vhd top_src "work" empty_graph).
  intros pa pb Ha Hb. vm_compute in Ha, Hb.
  destruct Ha as [<-|[<-|[<-|[]]]]; destruct Hb as [<-|[<-|[]]];
    vm_compute; discriminate.
Defined.

(** C3 as stated fails for two files that define the same entity: the
    [file] of the node is that of the file parsed last. *)
Lemma C3_counterexample :
  ~ graph_equiv
      (parse insertion_order dup_b_vhd dup_src "work"
             (parse insertion_order dup_a_vhd dup_src "work" empty_graph))
      (parse insertion_order dup_a_vhd dup_src "work"
             (parse insertion_order dup_b_vhd dup_src "work" empty_graph)).
Proof.
  intros [H _]. specialize (H "work.dup"). vm_compute in H. discriminate.
Qed.

(* ================================================================== *)
(** * Further properties of the scanner *)

(** X1. [parse] tags every unit the file defines with the file: after the
    call the node of the lower-cased unit holds the path of the file,
    whatever the graph held before. *)
Theorem parse_tags_defined_units
        (order : SetOrder) (filepath : Path) (source library : string)
        (g : DiGraph) (p : string) :
  In p (fst (_parse_file source library)) ->
  dict_get (lower p) (nodes (parse order filepath source library g))
  = Some (Some filepath).
Proof.
  intros H. rewrite parse_file_ops, dict_get_run, key_fold.
  destruct (last_node (lower p) (file_ops order filepath source library))
    as [a|] eqn:E.
  - apply last_node_in, node_of_file in E.
    destruct E as (q & Hq & [[_ ->]|[K _]]); [reflexivity|].
    exfalso. exact (define_not_wildcard _ _ p (lower q) H K).
  - exfalso. apply (last_node_none _ _ (Some filepath) E).
    unfold file_ops. apply in_parse_ops_node. exists p.
    split; [now apply in_iter | now left].
Qed.

Lemma parse_tags_defined_units_witness :
  dict_get "work.counter"
           (nodes (parse insertion_order counter_vhd counter_src "work"
                         empty_graph))
  = Some (Some counter_vhd).
Proof.
  apply (parse_tags_defined_units
           insertion_order counter_vhd counter_src "work" empty_graph
           "work.Counter").
  vm_compute. tauto.
Defined.

(** X2. [parse] gives every first-level unit the file defines (one dot
    in its identifier) a wildcard companion: after the call the node
    [p + ".*"] exists and has no [file]. *)
Theorem parse_adds_wildcard_companion
        (order : SetOrder) (filepath : Path) (source library : string)
        (g : DiGraph) (p : string) :
  In p (fst (_parse_file source library)) ->
  count_char "." (lower p) = 1 ->
  dict_get (lower p +++ ".*")
           (nodes (parse order filepath source library g))
  = Some None.
Proof.
  intros H D. rewrite parse_file_ops, dict_get_run, key_fold.
  destruct (last_node (lower p +++ ".*")
                      (file_ops order filepath source library))
    as [a|] eqn:E.
  - apply last_node_in, node_of_file in E.
    destruct E as (q & Hq & [[K _]|[_ ->]]); [|reflexivity].
    exfalso. symmetry in K.
    exact (define_not_wildcard _ _ q (lower p) Hq K).
  - exfalso. apply (last_node_none _ _ None E).
    unfold file_ops. apply in_parse_ops_node. exists p.
    split; [now apply in_iter | right; auto].
Qed.

Lemma parse_adds_wildcard_companion_witness :
  dict_get "work.counter.*"
           (nodes (parse insertion_order counter_vhd counter_src "work"
                         empty_graph))
  = Some None.
Proof.
  apply (parse_adds_wildcard_companion
           insertion_order counter_vhd counter_src "work" empty_graph
           "work.Counter").
  - vm_compute. tauto.
  - reflexivity.
Defined.

(** X3. [add_edge] never overwrites a node: a node that is in the mapping
    keeps its attributes, both ends of the edge are nodes afterwards, and
    the edge is the last of the edge list. *)
Theorem add_edge_keeps_attributes
        (g : DiGraph) (node_from node_to k : string) (a : Attrs) :
  dict_get k (nodes g) = Some a ->
  dict_get k (nodes (add_edge node_from node_to g)) = Some a
  /\ dict_in node_from (nodes (add_edge node_from node_to g)) = true
  /\ dict_in node_to (nodes (add_edge node_from node_to g)) = true
  /\ edges (add_edge node_from node_to g) = edges g ++ [(node_from, node_to)].
Proof.
  intros H. split; [|split; [|split]].
  - change (add_edge node_from node_to g)
      with (apply_op g (OpEdge node_from node_to)).
    rewrite dict_get_apply_op, H. reflexivity.
  - apply dict_in_keys, keys_add_edge. auto.
  - apply dict_in_keys, keys_add_edge. auto.
  - apply edges_add_edge.
Qed.

Lemma add_edge_keeps_attributes_witness :
  dict_get "work.counter"
           (nodes (add_edge "work.new" "work.counter" counter_graph))
  = Some (Some counter_vhd)
  /\ dict_in "work.new"
             (nodes (add_edge "work.new" "work.counter" counter_graph)) = true
  /\ dict_in "work.counter"
             (nodes (add_edge "work.new" "work.counter" counter_graph)) = true
  /\ edges (add_edge "work.new" "work.counter" counter_graph)
     = edges counter_graph ++ [("work.new", "work.counter")].
Proof.
  apply (add_edge_keeps_attributes
           counter_graph "work.new" "work.counter" "work.counter"
           (Some counter_vhd)).
  vm_compute. reflexivity.
Defined.

(** X4. [resolve] only adds edges from a wildcard identifier to a
    concrete one, and only between nodes that are in the graph: every
    edge it appends starts at a node with a star and ends at a node
    without one.  Two wildcard nodes are never linked. *)
Theorem resolve_links_wildcard_to_concrete (g : DiGraph) :
  exists created,
    edges (resolve g) = edges g ++ created
    /\ Forall (fun e => has_char "*" (fst e) = true
                        /\ has_char "*" (snd e) = false
                        /\ In (fst e) (keys (nodes g))
                        /\ In (snd e) (keys (nodes g))) created.
Proof.
  exists (op_edges (resolve_ops (keys (nodes g)))).
  split; [apply edges_resolve|].
  apply Forall_forall. intros [a b] H. simpl.
  apply in_op_edges, in_resolve_ops in H.
  destruct H as (u & v & Hu & Hv & E & Ho). injection Ho as -> ->.
  apply refering_star in E. tauto.
Qed.

(** X5. Every unit a file defines is in the library the file is parsed
    for: its identifier starts with the library name and a dot. *)
Theorem defines_are_in_library (source library p : string) :
  In p (fst (_parse_file source library)) ->
  startswith p (library +++ ".") = true.
Proof.
  assert (P : forall a b, String.prefix a (a +++ b) = true).
  { intros a b. induction a as [|c a IH]; simpl.
    - now destruct b.
    - destruct (ascii_dec c c) as [_|N]; [exact IH | now elim N]. }
  intros H. unfold startswith. apply in_defines in H.
  destruct H as [(m & _ & ->)|[(m & _ & ->)|H]].
  - rewrite <- append_assoc. apply P.
  - rewrite <- append_assoc. apply P.
  - apply in_comb_define in H.
    destruct H as [(m & _ & ->)|[(m & _ & ->)|(m & _ & ->)]];
      unfold body_define, arch_define, psl_define;
      rewrite <- append_assoc; apply P.
Qed.

Lemma defines_are_in_library_witness :
  startswith "work.counter.rtl" ("work" +++ ".") = true.
Proof.
  apply (defines_are_in_library counter_src "work" "work.counter.rtl").
  vm_compute. tauto.
Defined.

(** X6. The graph of a parser keeps three invariants through [parse],
    [resolve] and [remove]: both ends of every edge are nodes, both are
    in lower case, and no edge goes from a node to itself. *)
Theorem reachable_graph_invariants (g : DiGraph) (a b : string) :
  reachable g ->
  In (a, b) (edges g) ->
  In a (keys (nodes g)) /\ In b (keys (nodes g))
  /\ lower a = a /\ lower b = b /\ a <> b.
Proof.
  intros R H.
  destruct (reachable_closed g R a b H) as [Ka Kb].
  repeat split; try assumption;
    try (apply (reachable_lower g R); assumption).
  clear Ka Kb. revert a b H.
  induction R as [|order filepath source library g R IH|g R IH|units g R IH];
    intros a b H.
  - destruct H.
  - rewrite parse_run, edges_run in H. apply in_app_or in H.
    destruct H as [H|H]; [now apply IH|].
    pose proof (parse_no_self_loop
                  filepath (iter order (fst (_parse_file source library)))
                  (iter order (snd (_parse_file source library)))) as F.
    rewrite Forall_forall in F. exact (F (a, b) H).
  - rewrite edges_resolve in H. apply in_app_or in H.
    destruct H as [H|H]; [now apply IH|].
    pose proof (resolve_no_self_loop (keys (nodes g))) as F.
    rewrite Forall_forall in F. exact (F (a, b) H).
  - destruct (remove_fold units (keys (nodes g)) g) as [_ E].
    unfold remove, copy in H. rewrite E in H.
    apply filter_In in H. now apply IH.
Qed.

Lemma reachable_graph_invariants_witness :
  In "*.counter" (keys (nodes project_graph))
  /\ In "work.counter.rtl" (keys (nodes project_graph))
  /\ lower "*.counter" = "*.counter"
  /\ lower "work.counter.rtl" = "work.counter.rtl"
  /\ "*.counter" <> "work.counter.rtl".
Proof.
  apply (reachable_graph_invariants project_graph).
  - unfold project_graph, counter_graph.
    apply reach_resolve, reach_remove, reach_parse, reach_parse, reach_new.
  - vm_compute. tauto.
Defined.

(** X7. Pruning twice is pruning once: on the graph of a parser a second
    [remove] with the same libraries changes nothing. *)
Theorem remove_idempotent (units : list string) (g : DiGraph) :
  reachable g ->
  remove units (remove units g) = remove units g.
Proof.
  intros R. pose proof (reachable_closed g R) as C.
  destruct (remove_spec units g C) as [N1 E1].
  destruct (remove_spec units (remove units g) (closed_remove units g C))
    as [N2 E2].
  assert (Q : forall x y : DiGraph,
             nodes x = nodes y -> edges x = edges y -> x = y).
  { intros [n1 e1] [n2 e2]. simpl. now intros -> ->. }
  apply Q.
  - rewrite N2, N1, filter_twice. apply filter_ext. intros kv.
    now destruct (in_units units (fst kv)).
  - rewrite E2, E1, filter_twice. apply filter_ext. intros e.
    now destruct (in_units units (fst e)), (in_units units (snd e)).
Qed.

Lemma remove_idempotent_witness :
  remove ["ieee"; "std"] (remove ["ieee"; "std"] counter_graph)
  = remove ["ieee"; "std"] counter_graph.
Proof.
  apply (remove_idempotent ["ieee"; "std"] counter_graph).
  unfold counter_graph. apply reach_parse, reach_parse, reach_new.
Defined.

(** X8. A wildcard node without [file] gets a design-unit rule and
    nothing else: [write_makefile_rules] prints the four lines of the rule
    for its [ANY] name with no prerequisite, prints no object rule and no
    warning, and raises nothing. *)
Theorem wildcard_node_rule (root : Path) (g : DiGraph) (n : string) :
  dict_get n (nodes g) = Some None ->
  has_char "*" n = true ->
  out (write_node root g n)
  = [ ("du/" +++ du_name n +++ ": ") +++ endl;
      (String tab "@echo [DU] " +++ du_name n) +++ endl;
      String tab "@mkdir -p $(@D)" +++ endl;
      String tab "@touch $@" +++ endl ]
  /\ err (write_node root g n) = []
  /\ raised (write_node root g n) = None.
Proof.
  intros G S.
  assert (A : contains "ANY" (du_name n) = true).
  { unfold du_name. clear G. induction n as [|c n IH]; [discriminate|].
    simpl in S. simpl replace_char.
    destruct (Ascii.eqb c "*") eqn:E.
    - change (contains "ANY" ("ANY" +++ replace_char "*" "ANY" n))
        with (String.prefix "ANY" ("ANY" +++ replace_char "*" "ANY" n)
              || contains "ANY" ("NY" +++ replace_char "*" "ANY" n)).
      simpl String.prefix.
      now destruct (replace_char "*" "ANY" n).
    - simpl in S.
      change (contains "ANY" (String c (replace_char "*" "ANY" n)))
        with (String.prefix "ANY" (String c (replace_char "*" "ANY" n))
              || contains "ANY" (replace_char "*" "ANY" n)).
      rewrite (IH S). apply orb_true_r. }
  unfold write_node. rewrite G, A. simpl negb. cbn [andb].
  repeat split.
Qed.

Lemma wildcard_node_rule_witness :
  out (write_node root_dir project_graph "work.counter.*")
  = [ ("du/" +++ du_name "work.counter.*" +++ ": ") +++ endl;
      (String tab "@echo [DU] " +++ du_name "work.counter.*") +++ endl;
      String tab "@mkdir -p $(@D)" +++ endl;
      String tab "@touch $@" +++ endl ]
  /\ err (write_node root_dir project_graph "work.counter.*") = []
  /\ raised (write_node root_dir project_graph "work.counter.*") = None.
Proof.
  apply (wildcard_node_rule root_dir project_graph "work.counter.*").
  - vm_compute. reflexivity.
  - reflexivity.
Defined.

(** X9. A file outside the root stops the emission: when the [file] of a
    node is not below the root, [relative_to] raises [ValueError] before
    anything is printed for the node, and [write_makefile_rules] prints
    the rules of the nodes before it and none of the nodes after it. *)
Theorem foreign_file_stops_emission
        (root : Path) (g : DiGraph) (before after : list string)
        (n : string) (f : Path) :
  keys (nodes g) = before ++ n :: after ->
  dict_get n (nodes g) = Some (Some f) ->
  relative_to f root = None ->
  write_node root g n = raise ValueError
  /\ write_makefile_rules root g
     = write_nodes root g before ;; raise ValueError.
Proof.
  intros K G P.
  assert (W : write_node root g n = raise ValueError).
  { unfold write_node. now rewrite G, P. }
  split; [exact W|].
  unfold write_makefile_rules. rewrite K, write_nodes_app.
  simpl. rewrite W. reflexivity.
Qed.

Lemma foreign_file_stops_emission_witness :
  write_node ["elsewhere"] project_graph "work.counter" = raise ValueError
  /\ write_makefile_rules ["elsewhere"] project_graph
     = write_nodes ["elsewhere"] project_graph [] ;; raise ValueError.
Proof.
  apply (foreign_file_stops_emission
           ["elsewhere"] project_graph []
           ["work.counter.*"; "work.counter.rtl"; "work.counter.behav";
            "work.top"; "work.missing"; "*.counter"; "work.top.*";
            "work.top.a"]
           "work.counter" counter_vhd).
  - vm_compute. reflexivity.
  - vm_compute. reflexivity.
  - reflexivity.
Defined.

Lemma length_set_nth {A} (i : nat) (x : A) (l : list A) :
  List.length (ClassLevel.set_nth i x l) = List.length l.
Proof.
  revert i. induction l as [|y l IH]; intros [|i]; simpl; auto.
Qed.

Lemma nth_set_nth_other {A} (i j : nat) (x d : A) (l : list A) :
  i <> j -> nth j (ClassLevel.set_nth i x l) d = nth j l d.
Proof.
  revert i j. induction l as [|y l IH]; intros [|i] [|j] H; simpl;
    try reflexivity; [now elim H | apply IH; lia].
Qed.

(** X10. Seen through the instance they are called on, the methods of
    the class act on the class-level containers as the methods of a graph
    that owns its storage: the view of the instance after [add_node],
    [remove_node] and [add_edge] is the result of the same operation on
    its view before. *)
Theorem instance_view_simulation (self : nat) (w : ClassLevel.World) :
  self < List.length (ClassLevel.own_edges w) ->
  (forall node kwargs,
      ClassLevel.view self (ClassLevel.add_node self node kwargs w)
      = add_node node kwargs (ClassLevel.view self w))
  /\ (forall node,
         ClassLevel.view self (ClassLevel.remove_node self node w)
         = remove_node node (ClassLevel.view self w))
  /\ (forall node_from node_to,
         ClassLevel.view self (ClassLevel.add_edge self node_from node_to w)
         = add_edge node_from node_to (ClassLevel.view self w)).
Proof.
  intros H. split; [|split]; intros.
  - apply view_add_node.
  - now apply view_remove_node.
  - now apply view_add_edge.
Qed.

Lemma instance_view_simulation_witness :
  let w := snd (ClassLevel.construct ClassLevel.start) in
  (forall node kwargs,
      ClassLevel.view 0 (ClassLevel.add_node 0 node kwargs w)
      = add_node node kwargs (ClassLevel.view 0 w))
  /\ (forall node,
         ClassLevel.view 0 (ClassLevel.remove_node 0 node w)
         = remove_node node (ClassLevel.view 0 w))
  /\ (forall node_from node_to,
         ClassLevel.view 0 (ClassLevel.add_edge 0 node_from node_to w)
         = add_edge node_from node_to (ClassLevel.view 0 w)).
Proof.
  apply (instance_view_simulation
           0 (snd (ClassLevel.construct ClassLevel.start))).
  simpl. lia.
Defined.

(** X11. [remove_node] gives the instance an edge list of its own: an
    edge that the instance adds after it has removed a node is in its own
    edge list and not added to the list another instance reads, while the
    two ends of the edge are still added to the node mapping that the
    other instance reads. *)
Theorem own_edge_list_after_remove_node
        (w : ClassLevel.World) (a b : nat) (n node_from node_to : string) :
  a < List.length (ClassLevel.own_edges w) ->
  a <> b ->
  let w' := ClassLevel.add_edge a node_from node_to
              (ClassLevel.remove_node a n w) in
  ClassLevel.get_edges b w' = ClassLevel.get_edges b w
  /\ In (node_from, node_to) (ClassLevel.get_edges a w')
  /\ dict_in node_from (ClassLevel.get_nodes b w') = true
  /\ dict_in node_to (ClassLevel.get_nodes b w') = true.
Proof.
  intros L N w'.
  assert (L1 : a < List.length
                     (ClassLevel.own_edges (ClassLevel.remove_node a n w))).
  { simpl. now rewrite length_set_nth. }
  pose proof (view_add_edge a node_from node_to
                            (ClassLevel.remove_node a n w) L1) as V.
  fold w' in V.
  assert (Vn : ClassLevel.get_nodes b w'
               = nodes (ClassLevel.view a w')) by reflexivity.
  assert (Ve : ClassLevel.get_edges a w'
               = edges (ClassLevel.view a w')) by reflexivity.
  split; [|split; [|split]].
  - unfold w', ClassLevel.add_edge, ClassLevel.get_edges,
      ClassLevel.get_nodes.
    cbn [fold_left].
    destruct (dict_in node_from
                      (ClassLevel.cls_nodes (ClassLevel.remove_node a n w)));
      match goal with
      | |- context [dict_in node_to ?d] => destruct (dict_in node_to d)
      end;
      cbn [ClassLevel.own_edges ClassLevel.cls_edges ClassLevel.cls_nodes
           ClassLevel.remove_node ClassLevel.add_node];
      rewrite (nth_set_nth a _ None _ L);
      cbn [ClassLevel.own_edges ClassLevel.cls_edges];
      rewrite !(nth_set_nth_other a b) by exact N; reflexivity.
  - rewrite Ve, V, edges_add_edge. apply in_or_app. right. now left.
  - rewrite Vn, V. apply dict_in_keys, keys_add_edge. auto.
  - rewrite Vn, V. apply dict_in_keys, keys_add_edge. auto.
Qed.

Lemma own_edge_list_after_remove_node_witness :
  let w := snd (ClassLevel.construct
                  (snd (ClassLevel.construct ClassLevel.start))) in
  let w' := ClassLevel.add_edge 0 "work.a" "work.b"
              (ClassLevel.remove_node 0 "work.x" w) in
  ClassLevel.get_edges 1 w' = ClassLevel.get_edges 1 w
  /\ In ("work.a", "work.b") (ClassLevel.get_edges 0 w')
  /\ dict_in "work.a" (ClassLevel.get_nodes 1 w') = true
  /\ dict_in "work.b" (ClassLevel.get_nodes 1 w') = true.
Proof.
  apply (own_edge_list_after_remove_node
           (snd (ClassLevel.construct
                   (snd (ClassLevel.construct ClassLevel.start))))
           0 1 "work.x" "work.a" "work.b").
  - simpl. lia.
  - discriminate.
Defined.











